(** * livepeer-exporter: the start-up sequence of [main.go] and the
    sub-exporters it launches.

    [main] reads its configuration from the process environment, builds the
    five sub-exporters, starts them and then serves [/metrics].  The program
    is embedded as a function from the outside world (environment, outcome
    of the listener) to the trace of effects it performs and the way the
    process ends.  Go's [time.ParseDuration] belongs to the standard
    library; [main] is parametrised by it. *)

From Stdlib Require Import ZArith Ascii String List.
From stdpp Require Import base option gmap strings list fin_maps.

Local Open Scope string_scope.
Local Open Scope list_scope.
Local Open Scope Z_scope.

(** ** Package [time] *)

(** Go's [error] values are seen by [main] only through ["%v"], that is
    through their message. *)
Definition error : Type := string.

Module time.
(** [type Duration int64], a count of nanoseconds. *)
Definition Duration : Type := Z.

Definition Nanosecond : Duration := 1.
Definition Microsecond : Duration := 1000 * Nanosecond.
Definition Millisecond : Duration := 1000 * Microsecond.
Definition Second : Duration := 1000 * Millisecond.
Definition Minute : Duration := 60 * Second.
Definition Hour : Duration := 60 * Minute.

(** *** [time.ParseDuration] (Go 1.17 and later, [time/format.go])

    The library function that [main] calls.  Its integer arithmetic is
    [uint64] with the wrap-around written out; the one [float64]
    expression of the source, the nanoseconds of a fractional part, is
    taken as the parameter [fracNanos]. *)

Definition uint64 (z : Z) : Z := z mod 2 ^ 64.
Definition int64 (z : Z) : Z := (z + 2 ^ 63) mod 2 ^ 64 - 2 ^ 63.

Definition byte (c : ascii) : Z := Z.of_N (N_of_ascii c).
Definition isDigit (c : ascii) : bool := (48 <=? byte c) && (byte c <=? 57).
Definition isDot (c : ascii) : bool := byte c =? 46.

Definition lowerhex (n : Z) : ascii :=
  nth (Z.to_nat n) (list_ascii_of_string "0123456789abcdef") "0"%char.

Definition backslash : ascii := ascii_of_nat 92.
Definition dquote : ascii := ascii_of_nat 34.

(** [quote]: bytes of non-ASCII runes and control characters are written
    in hexadecimal, a quote or a backslash is escaped. *)
Fixpoint quoteBody (s : string) : string :=
  match s with
  | EmptyString => EmptyString
  | String c s' =>
      let b := byte c in
      (if (128 <=? b) || (b <? 32) then
         String backslash (String "x" (String (lowerhex (Z.shiftr b 4))
           (String (lowerhex (Z.land b 15)) EmptyString)))
       else if (b =? 34) || (b =? 92) then
         String backslash (String c EmptyString)
       else String c EmptyString) +:+ quoteBody s'
  end.

Definition quote (s : string) : string :=
  String dquote (quoteBody s +:+ String dquote EmptyString).

(** [leadingInt]: the leading [[0-9]*] of [s]; [None] is [errLeadingInt]. *)
Fixpoint leadingIntFrom (x : Z) (s : string) : option (Z * string) :=
  match s with
  | EmptyString => Some (x, s)
  | String c s' =>
      if negb (isDigit c) then Some (x, s)
      else if x >? 2 ^ 63 / 10 then None
      else
        let x := uint64 (uint64 (uint64 (x * 10) + byte c) - 48) in
        if x >? 2 ^ 63 then None else leadingIntFrom x s'
  end.

Definition leadingInt (s : string) : option (Z * string) :=
  leadingIntFrom 0 s.

(** [leadingFraction]: the leading [[0-9]*] of [s] as a numerator and a
    power of ten ([scale], a [float64] in the source, exact up to the 19
    digits it can reach); digits past an overflow are skipped. *)
Fixpoint leadingFractionFrom (x scale : Z) (overflow : bool) (s : string)
    : Z * Z * string :=
  match s with
  | EmptyString => (x, scale, s)
  | String c s' =>
      if negb (isDigit c) then (x, scale, s)
      else if overflow then leadingFractionFrom x scale overflow s'
      else if x >? (2 ^ 63 - 1) / 10 then leadingFractionFrom x scale true s'
      else
        let y := uint64 (uint64 (uint64 (x * 10) + byte c) - 48) in
        if y >? 2 ^ 63 then leadingFractionFrom x scale true s'
        else leadingFractionFrom y (scale * 10) overflow s'
  end.

Definition leadingFraction (s : string) : Z * Z * string :=
  leadingFractionFrom 0 1 false s.

(** The unit: everything up to the next ['.'] or digit. *)
Fixpoint unitSpan (s : string) : string * string :=
  match s with
  | EmptyString => (EmptyString, EmptyString)
  | String c s' =>
      if isDot c || isDigit c then (EmptyString, s)
      else let '(u, rest) := unitSpan s' in (String c u, rest)
  end.

Definition micro : string := String (ascii_of_nat 194) (String (ascii_of_nat 181) "s").
Definition mu : string := String (ascii_of_nat 206) (String (ascii_of_nat 188) "s").

Definition unitMap : gmap string Z :=
  list_to_map
    [("ns", Nanosecond); ("us", Microsecond); (micro, Microsecond);
     (mu, Microsecond); ("ms", Millisecond); ("s", Second);
     ("m", Minute); ("h", Hour)].

Definition invalidDuration (orig : string) : error :=
  "time: invalid duration " +:+ quote orig.

Section ParseDuration.
(** [uint64(float64(f) * (float64(unit) / scale))] *)
Variable fracNanos : Z → Z → Z → Z.

(** The loop [for s != ""]; every round consumes at least the unit, so
    [fuel] at least the length of [s] is never used up
    ([parseParts_fuel]). *)
Fixpoint parseParts (fuel : nat) (orig : string) (d : Z) (s : string)
    : Z + error :=
  match s, fuel with
  | EmptyString, _ => inl d
  | String c _, O => inr (invalidDuration orig)
  | String c _, S fuel =>
      (* The next character must be [0-9.] *)
      if negb (isDot c || isDigit c) then inr (invalidDuration orig)
      else
        (* Consume [0-9]* *)
        let pl := String.length s in
        match leadingInt s with
        | None => inr (invalidDuration orig)
        | Some (v, s) =>
            let pre := negb (Nat.eqb pl (String.length s)) in
            (* Consume the optional fraction: a dot and [0-9]* *)
            let '(f, scale, post, s) :=
              match s with
              | String c' s' =>
                  if isDot c' then
                    let pl := String.length s' in
                    let '(f, scale, s'') := leadingFraction s' in
                    (f, scale, negb (Nat.eqb pl (String.length s'')), s'')
                  else (0, 1, false, s)
              | EmptyString => (0, 1, false, s)
              end in
            if negb pre && negb post then inr (invalidDuration orig)
            else
              (* Consume unit. *)
              let '(u, s) := unitSpan s in
              if String.eqb u "" then
                inr ("time: missing unit in duration " +:+ quote orig)
              else
                match unitMap !! u with
                | None =>
                    inr ("time: unknown unit " +:+ quote u
                           +:+ " in duration " +:+ quote orig)
                | Some unit =>
                    if v >? 2 ^ 63 / unit then inr (invalidDuration orig)
                    else
                      let v := uint64 (v * unit) in
                      let v :=
                        if f >? 0 then uint64 (v + fracNanos f unit scale)
                        else v in
                      if (f >? 0) && (v >? 2 ^ 63) then
                        inr (invalidDuration orig)
                      else
                        let d := uint64 (d + v) in
                        if d >? 2 ^ 63 then inr (invalidDuration orig)
                        else parseParts fuel orig d s
                end
        end
  end.

Definition ParseDuration (s : string) : Duration * option error :=
  let orig := s in
  (* Consume the optional sign *)
  let '(neg, s) :=
    match s with
    | String c s' =>
        if (byte c =? 45) || (byte c =? 43) then (byte c =? 45, s')
        else (false, s)
    | EmptyString => (false, s)
    end in
  (* Special case: if all that is left is "0", this is zero. *)
  if String.eqb s "0" then (0, None)
  else if String.eqb s "" then (0, Some (invalidDuration orig))
  else
    match parseParts (String.length s) orig 0 s with
    | inr err => (0, Some err)
    | inl d =>
        if neg then (int64 (- int64 d), None)
        else if d >? 2 ^ 63 - 1 then (0, Some (invalidDuration orig))
        else (int64 d, None)
    end.
End ParseDuration.

(** The fractional nanoseconds in exact integer arithmetic.  This is not
    the [float64] value of the source: the two differ on some fractions (for
    0.3333333333333333333h the source gives 1200000000000, this gives
    1199999999999).  The examples use it only on strings without a
    fractional part, where it is never reached. *)
Definition exactFrac (f unit scale : Z) : Z := f * unit / scale.
End time.

(** ** Effects of the process *)

Inductive exporter_kind : Type :=
  | OrchInfo
  | OrchScore
  | OrchDelegators
  | OrchTestStreams
  | OrchTickets.

#[global] Instance exporter_kind_eq_dec : EqDecision exporter_kind.
Proof. solve_decision. Defined.

(** The arguments a sub-exporter was constructed with.  Only the info
    exporter takes a secondary address. *)
Record exporter : Type := Exporter {
  kind : exporter_kind;
  orchAddress : string;
  fetchInterval : time.Duration;
  updateInterval : time.Duration;
  orchAddrSecondary : option string
}.

Inductive event : Type :=
  | Println (msg : string)
  | Fatal (msg : string)
  | Construct (e : exporter)
  | Started (e : exporter)
  | Handle (pattern : string)
  | ListenAndServe (addr : string).

(** How the process ends: [os.Exit] with a status, or never (the HTTP
    server keeps serving until the process is killed from outside). *)
Inductive outcome : Type :=
  | Exit (code : Z)
  | Serving.

Inductive result (A : Type) : Type :=
  | Return (a : A)
  | Halt (o : outcome).
Arguments Return {A} a.
Arguments Halt {A} o.

(** A computation performs a trace of effects and then either yields a
    value or halts the process. *)
Definition Prog (A : Type) : Type := list event * result A.

#[global] Instance Prog_ret : MRet Prog := λ A a, ([], Return a).

#[global] Instance Prog_bind : MBind Prog := λ A B f m,
  match m with
  | (t, Return a) => let '(t', r) := f a in (t ++ t', r)
  | (t, Halt o) => (t, Halt o)
  end.

Definition emit (e : event) : Prog unit := ([e], Return tt).

(** The outside world of one run of the process. *)
Record World : Type := {
  (** the process environment *)
  environ : gmap string string;
  (** what [http.ListenAndServe] does: [None] when it serves and never
      returns, [Some err] when it returns [err] *)
  listenError : option error
}.

(** ** Packages [os], [log] and [net/http] *)

Module os.
(** [os.Getenv]: the value of the variable, empty when it is not set. *)
Definition Getenv (w : World) (key : string) : string :=
  default "" (environ w !! key).
End os.

Module log.
Definition Println (msg : string) : Prog unit := emit (Println msg).

(** [log.Fatal] is [Print] followed by [os.Exit(1)]. *)
Definition Fatal {A : Type} (msg : string) : Prog A :=
  ([Fatal msg], Halt (Exit 1)).

(** [log.Fatalf format err] for a format that ends in ["%v"]. *)
Definition Fatalf {A : Type} (prefix : string) (err : error) : Prog A :=
  Fatal (prefix +:+ err).
End log.

Module http.
Definition Handle (pattern : string) : Prog unit := emit (Handle pattern).

(** [http.ListenAndServe] returns only with an error. *)
Definition ListenAndServe (w : World) (addr : string) : Prog error :=
  match listenError w with
  | Some err => ([ListenAndServe addr], Return err)
  | None => ([ListenAndServe addr], Halt Serving)
  end.
End http.

(** ** The sub-exporter packages, as [main] uses them

    [main] only calls their constructors and [Start]; a call is recorded in
    the trace with the arguments it was given. *)

(** Modelled from the spec: the constructor of package [orch_info_exporter]
    (the package is missing), "constructed with (address, fetch interval,
    update interval, optional secondary address)". *)
Definition NewOrchInfoExporter (orchAddr : string)
    (fetchInterval updateInterval : time.Duration)
    (orchAddrSecondary : string) : Prog exporter :=
  let e := Exporter OrchInfo orchAddr fetchInterval updateInterval
             (Some orchAddrSecondary) in
  emit (Construct e);; mret e.

(** Modelled from the spec: the constructors of the four other packages
    (missing), each constructed with address, fetch interval and update
    interval. *)
Definition NewExporter (k : exporter_kind) (orchAddr : string)
    (fetchInterval updateInterval : time.Duration) : Prog exporter :=
  let e := Exporter k orchAddr fetchInterval updateInterval None in
  emit (Construct e);; mret e.

Definition NewOrchScoreExporter := NewExporter OrchScore.
Definition NewOrchDelegatorsExporter := NewExporter OrchDelegators.
Definition NewOrchTestStreamsExporter := NewExporter OrchTestStreams.
Definition NewOrchTicketsExporter := NewExporter OrchTickets.

(** Modelled from the spec: the method [Start] of a sub-exporter (the
    packages are missing), which "launches two independent periodic loops
    and returns immediately". *)
Definition Start (e : exporter) : Prog unit := emit (Started e).

(** ** [main.go] *)

Definition fetchIntervalDefault : time.Duration := 1 * time.Minute.
Definition testStreamsFetchIntervalDefault : time.Duration := 15 * time.Minute.
Definition updateIntervalDefault : time.Duration := 30 * time.Second.

Section Main.
(** [time.ParseDuration]: a duration together with [nil] or an error. *)
Variable ParseDuration : string → time.Duration * option error.

Definition main (w : World) : Prog unit :=
  log.Println "Starting Livepeer exporter...";;

  (* Retrieve orchestrator address. *)
  let orchAddr := os.Getenv w "LIVEPEER_EXPORTER_ORCHESTRATOR_ADDRESS" in
  (if String.eqb orchAddr "" then
     log.Fatal "'LIVEPEER_EXPORTER_ORCHESTRATOR_ADDRESS' environment variable should be set"
   else mret tt);;

  (* Retrieve secondary orchestrator address. *)
  let orchAddrSecondary :=
    os.Getenv w "LIVEPEER_EXPORTER_ORCHESTRATOR_ADDRESS_SECONDARY" in

  (* Retrieve fetch interval. *)
  let fetchIntervalStr := os.Getenv w "LIVEPEER_EXPORTER_FETCH_INTERVAL" in
  fetchInterval ←
    (if String.eqb fetchIntervalStr "" then mret fetchIntervalDefault
     else
       let '(d, err) := ParseDuration fetchIntervalStr in
       match err with
       | Some err =>
           log.Fatalf "failed to parse 'LIVEPEER_EXPORTER_FETCH_INTERVAL' environment variable: " err
       | None => mret d
       end);

  (* Retrieve test stream fetch interval. *)
  let fetchTestStreamsIntervalStr :=
    os.Getenv w "LIVEPEER_EXPORTER_FETCH_TEST_STREAMS_INTERVAL" in
  fetchTestStreamsInterval ←
    (if String.eqb fetchTestStreamsIntervalStr "" then
       mret testStreamsFetchIntervalDefault
     else
       let '(d, err) := ParseDuration fetchTestStreamsIntervalStr in
       match err with
       | Some err =>
           log.Fatalf "failed to parse 'LIVEPEER_EXPORTER_FETCH_TEST_STREAMS_INTERVAL' environment variable: " err
       | None => mret d
       end);

  (* Retrieve update interval. *)
  let updateIntervalStr := os.Getenv w "LIVEPEER_EXPORTER_UPDATE_INTERVAL" in
  updateInterval ←
    (if String.eqb updateIntervalStr "" then mret updateIntervalDefault
     else
       let '(d, err) := ParseDuration updateIntervalStr in
       match err with
       | Some err =>
           log.Fatalf "failed to parse 'LIVEPEER_EXPORTER_UPDATE_INTERVAL' environment variable: " err
       | None => mret d
       end);

  (* Setup sub-exporters. *)
  log.Println "Setting up sub exporters...";;
  orchInfoExporter ←
    NewOrchInfoExporter orchAddr fetchInterval updateInterval orchAddrSecondary;
  orchScoreExporter ←
    NewOrchScoreExporter orchAddr fetchInterval updateInterval;
  orchDelegatorsExporter ←
    NewOrchDelegatorsExporter orchAddr fetchInterval updateInterval;
  orchTestStreamsExporter ←
    NewOrchTestStreamsExporter orchAddr fetchTestStreamsInterval updateInterval;
  orchTicketsExporter ←
    NewOrchTicketsExporter orchAddr fetchInterval updateInterval;

  (* Start sub-exporters. *)
  log.Println "Starting sub exporters...";;
  Start orchInfoExporter;;
  Start orchScoreExporter;;
  Start orchDelegatorsExporter;;
  Start orchTestStreamsExporter;;
  Start orchTicketsExporter;;

  (* Expose the registered metrics via HTTP. *)
  log.Println "Exposing metrics via HTTP on port 9153";;
  http.Handle "/metrics";;
  _ ← http.ListenAndServe w ":9153";
  mret tt.

(** Running the process: when [main] returns, the process exits with
    status 0. *)
Definition run (w : World) : list event * outcome :=
  match main w with
  | (t, Return _) => (t, Exit 0)
  | (t, Halt o) => (t, o)
  end.

Definition trace (w : World) : list event := fst (run w).
Definition exit (w : World) : outcome := snd (run w).

(** *** Vocabulary for the statements about [main] *)

(** A duration variable is either left to its default or accepted by
    [ParseDuration] ... *)
Inductive resolves (dflt : time.Duration) (value : string)
    (d : time.Duration) : Prop :=
  | resolves_default : value = "" → d = dflt → resolves dflt value d
  | resolves_parsed :
      value ≠ "" → ParseDuration value = (d, None) → resolves dflt value d.

(** ... or it is set and [ParseDuration] reports [err]. *)
Definition rejects (value : string) (err : error) : Prop :=
  value ≠ "" ∧ snd (ParseDuration value) = Some err.

(** The message of [log.Fatalf] for the variable [name]. *)
Definition parseFailure (name : string) (err : error) : string :=
  "failed to parse '" +:+ name +:+ "' environment variable: " +:+ err.
End Main.

Abbreviation ORCHESTRATOR_ADDRESS := "LIVEPEER_EXPORTER_ORCHESTRATOR_ADDRESS" (only parsing).
Abbreviation ORCHESTRATOR_ADDRESS_SECONDARY :=
  "LIVEPEER_EXPORTER_ORCHESTRATOR_ADDRESS_SECONDARY" (only parsing).
Abbreviation FETCH_INTERVAL := "LIVEPEER_EXPORTER_FETCH_INTERVAL" (only parsing).
Abbreviation FETCH_TEST_STREAMS_INTERVAL :=
  "LIVEPEER_EXPORTER_FETCH_TEST_STREAMS_INTERVAL" (only parsing).
Abbreviation UPDATE_INTERVAL := "LIVEPEER_EXPORTER_UPDATE_INTERVAL" (only parsing).

Definition missingAddress : string :=
  "'LIVEPEER_EXPORTER_ORCHESTRATOR_ADDRESS' environment variable should be set".

(** The sub-exporters a trace constructs and starts, in order. *)
Definition constructed (t : list event) : list exporter :=
  omap (λ ev, match ev with Construct e => Some e | _ => None end) t.

Definition started (t : list event) : list exporter :=
  omap (λ ev, match ev with Started e => Some e | _ => None end) t.

(** The trace of a run that gets through the configuration. *)
Definition servingTrace (orchAddr secondary : string)
    (fetch testStreams update : time.Duration) : list event :=
  let info := Exporter OrchInfo orchAddr fetch update (Some secondary) in
  let score := Exporter OrchScore orchAddr fetch update None in
  let delegators := Exporter OrchDelegators orchAddr fetch update None in
  let streams := Exporter OrchTestStreams orchAddr testStreams update None in
  let tickets := Exporter OrchTickets orchAddr fetch update None in
  [ Println "Starting Livepeer exporter...";
    Println "Setting up sub exporters...";
    Construct info; Construct score; Construct delegators;
    Construct streams; Construct tickets;
    Println "Starting sub exporters...";
    Started info; Started score; Started delegators; Started streams;
    Started tickets;
    Println "Exposing metrics via HTTP on port 9153";
    Handle "/metrics";
    ListenAndServe ":9153" ].

(** The five ways a run of [main] can go. *)
Inductive startup (ParseDuration : string → time.Duration * option error)
    (w : World) : list event * outcome → Prop :=
  | startup_no_address :
      os.Getenv w ORCHESTRATOR_ADDRESS = "" →
      startup ParseDuration w
        ([Println "Starting Livepeer exporter..."; Fatal missingAddress], Exit 1)
  | startup_bad_fetch err :
      os.Getenv w ORCHESTRATOR_ADDRESS ≠ "" →
      rejects ParseDuration (os.Getenv w FETCH_INTERVAL) err →
      startup ParseDuration w
        ([Println "Starting Livepeer exporter...";
          Fatal (parseFailure FETCH_INTERVAL err)], Exit 1)
  | startup_bad_test_streams fetch err :
      os.Getenv w ORCHESTRATOR_ADDRESS ≠ "" →
      resolves ParseDuration fetchIntervalDefault
        (os.Getenv w FETCH_INTERVAL) fetch →
      rejects ParseDuration (os.Getenv w FETCH_TEST_STREAMS_INTERVAL) err →
      startup ParseDuration w
        ([Println "Starting Livepeer exporter...";
          Fatal (parseFailure FETCH_TEST_STREAMS_INTERVAL err)], Exit 1)
  | startup_bad_update fetch testStreams err :
      os.Getenv w ORCHESTRATOR_ADDRESS ≠ "" →
      resolves ParseDuration fetchIntervalDefault
        (os.Getenv w FETCH_INTERVAL) fetch →
      resolves ParseDuration testStreamsFetchIntervalDefault
        (os.Getenv w FETCH_TEST_STREAMS_INTERVAL) testStreams →
      rejects ParseDuration (os.Getenv w UPDATE_INTERVAL) err →
      startup ParseDuration w
        ([Println "Starting Livepeer exporter...";
          Fatal (parseFailure UPDATE_INTERVAL err)], Exit 1)
  | startup_serving fetch testStreams update :
      os.Getenv w ORCHESTRATOR_ADDRESS ≠ "" →
      resolves ParseDuration fetchIntervalDefault
        (os.Getenv w FETCH_INTERVAL) fetch →
      resolves ParseDuration testStreamsFetchIntervalDefault
        (os.Getenv w FETCH_TEST_STREAMS_INTERVAL) testStreams →
      resolves ParseDuration updateIntervalDefault
        (os.Getenv w UPDATE_INTERVAL) update →
      startup ParseDuration w
        (servingTrace (os.Getenv w ORCHESTRATOR_ADDRESS)
           (os.Getenv w ORCHESTRATOR_ADDRESS_SECONDARY)
           fetch testStreams update,
         match listenError w with Some _ => Exit 0 | None => Serving end).

(** * The sub-exporters

    The five exporter packages are not part of the sources at hand; [main]
    only constructs and starts them.  What follows is their common shape as
    the specification describes it: a snapshot that the fetch loop replaces,
    gauges that the update loop rewrites from the snapshot, and the scrape
    that reads the gauges. *)

Module SubExporter.

(** Modelled from the spec: the numeric values of gauges (the exporter
    packages that fix the number type are missing); a gauge holds "a
    current numeric value", and the stake of two addresses is summed. *)
Class Numeric (V : Type) : Type := {
  zero : V;
  add : V → V → V
}.

(** Modelled from the spec: integer gauge values, for the example "primary
    = 100, secondary = 50 gives 150" (the exporter packages are missing). *)
#[global] Instance Z_numeric : Numeric Z := {| zero := 0; add := Z.add |}.

(** Modelled from the spec: "an optional set of label key/value pairs" of
    a gauge (the metric definitions of the exporter packages are
    missing). *)
Definition Labels : Type := list (string * string).

(** Modelled from the spec: what one HTTP GET to the monitored node comes
    back with, a network failure or a status and a body (the fetch code of
    the exporter packages is missing). *)
Inductive response : Type :=
  | NetworkError (msg : string)
  | Response (status : Z) (body : string).

(** Modelled from the spec: the upstream collaborator, an answer for
    every URL (the monitored node is an external contract). *)
Definition Upstream : Type := string → response.

(** Modelled from the spec: the three kinds of fetch error, "network
    failure, non-2xx status, decode failure" (the fetch code of the
    exporter packages is missing). *)
Inductive fetchError : Type :=
  | NetworkFailure (url msg : string)
  | BadStatus (url : string) (status : Z)
  | DecodeFailure.

(** Modelled from the spec: one HTTP GET of the fetch loop, an error on a
    network failure or a status outside 200..299 (the fetch code of the
    exporter packages is missing). *)
Definition get (up : Upstream) (url : string) : fetchError + string :=
  match up url with
  | NetworkError msg => inl (NetworkFailure url msg)
  | Response status body =>
      if (200 <=? status) && (status <? 300) then inr body
      else inl (BadStatus url status)
  end.

(** Modelled from the spec: the "one or more HTTP GETs" of a fetch, in
    order, given up at the first error (the fetch code of the exporter
    packages is missing). *)
Fixpoint getAll (up : Upstream) (urls : list string)
    : fetchError + list string :=
  match urls with
  | [] => inr []
  | url :: urls =>
      match get up url with
      | inl err => inl err
      | inr body =>
          match getAll up urls with
          | inl err => inl err
          | inr bodies => inr (body :: bodies)
          end
      end
  end.

(** Modelled from the spec: a tick of one of the two loops of a
    sub-exporter; a fetch tick meets the upstream as it is at that moment
    (the loops of the exporter packages are missing). *)
Inductive tick : Type :=
  | FetchTick (up : Upstream)
  | UpdateTick.

Section Generic.
Context {V : Type}.

(** Modelled from the spec: the scrape, "the full current state of the
    metrics registry" as samples of gauge name, labels and value; the
    registry maps a gauge name to its value per label combination (the
    registry of the Prometheus client library is missing, the text
    format is left out). *)
Definition scrape (reg : gmap string (gmap Labels V))
    : list (string * Labels * V) :=
  '(name, series) ← map_to_list reg;
  '(labels, v) ← map_to_list series;
  [(name, labels, v)].

(** Modelled from the spec: what distinguishes one sub-exporter from
    another: the URLs it fetches, its "decode+transform function", the
    "empty/zero" snapshot it is constructed with and the gauges it sets
    from a snapshot (the five exporter packages are missing). *)
Record Endpoint (Data : Type) : Type := {
  requests : list string;
  decode : list string → option Data;
  empty : Data;
  render : Data → gmap string (gmap Labels V)
}.

(** Modelled from the spec: the state of a sub-exporter: its snapshot,
    the process-wide registry its gauges live in and the errors it has
    logged (the exporter packages are missing). *)
Record State (Data : Type) : Type := {
  snapshot : Data;
  registry : gmap string (gmap Labels V);
  errors : list fetchError
}.

Context {Data : Type} (ep : Endpoint Data).
Arguments requests {Data}.
Arguments decode {Data}.
Arguments empty {Data}.
Arguments render {Data}.
Arguments snapshot {Data}.
Arguments registry {Data}.
Arguments errors {Data}.

(** Modelled from the spec: the fetch proper: the GETs, then the
    decoding and derivation (the fetch code of the exporter packages is
    missing). *)
Definition fetchData (up : Upstream) : fetchError + Data :=
  match getAll up (requests ep) with
  | inl err => inl err
  | inr bodies =>
      match decode ep bodies with
      | Some data => inr data
      | None => inl DecodeFailure
      end
  end.

(** Modelled from the spec: the three ways a fetch fails: a "network
    failure", a "non-2xx status" or a "decode failure" (the fetch code
    of the exporter packages is missing). *)
Inductive fetchFails (up : Upstream) : Prop :=
  | fails_network url msg :
      url ∈ requests ep → up url = NetworkError msg → fetchFails up
  | fails_status url status body :
      url ∈ requests ep → up url = Response status body →
      ¬ (200 ≤ status < 300) → fetchFails up
  | fails_decode bodies :
      getAll up (requests ep) = inr bodies → decode ep bodies = None →
      fetchFails up.

(** Modelled from the spec: a tick of the fetch loop: "on success
    atomically stores the result as the new snapshot", on any error
    "logs the error and leaves the existing snapshot untouched" (the
    fetch loop of the exporter packages is missing). *)
Definition fetch (up : Upstream) (st : State Data) : State Data :=
  match fetchData up with
  | inr data =>
      {| snapshot := data; registry := registry st; errors := errors st |}
  | inl err =>
      {| snapshot := snapshot st; registry := registry st;
         errors := errors st ++ [err] |}
  end.

(** Modelled from the spec: a tick of the update loop: it "reads the
    current snapshot and sets each owned gauge's value (and labels)"
    from it, replacing what the gauge held (the update loop of the
    exporter packages is missing). *)
Definition update (st : State Data) : State Data :=
  {| snapshot := snapshot st;
     registry := render ep (snapshot st) ∪ registry st;
     errors := errors st |}.

(** Modelled from the spec: construction: the snapshot is "created
    empty/zero" and the gauges are "registered once at construction"
    (the constructors of the exporter packages are missing). *)
Definition construct (reg : gmap string (gmap Labels V)) : State Data :=
  {| snapshot := empty ep;
     registry := render ep (empty ep) ∪ reg;
     errors := [] |}.

(** Modelled from the spec: the two loops of a sub-exporter, as the
    sequence of their ticks (the loops of the exporter packages are
    missing). *)
Definition step (st : State Data) (t : tick) : State Data :=
  match t with
  | FetchTick up => fetch up st
  | UpdateTick => update st
  end.

(** Modelled from the spec: a sub-exporter run over a sequence of ticks
    (the loops of the exporter packages are missing). *)
Definition run (st : State Data) (ticks : list tick) : State Data :=
  foldl step st ticks.
End Generic.

Arguments requests {V Data}.
Arguments decode {V Data}.
Arguments empty {V Data}.
Arguments render {V Data}.
Arguments snapshot {V Data}.
Arguments registry {V Data}.
Arguments errors {V Data}.

(** *** The info exporter and its secondary address *)

(** Modelled from the spec: the gauge of the orchestrator's stake, named
    as the comment at the head of [main.go] names it (the metric
    definitions of the info exporter package are missing). *)
Definition stakeGauge : string := "livepeer_orch_stake".

Section Info.
Context {V : Type} `{!Numeric V} {Info : Type}.

(** The upstream schema is opaque: where an address is looked up, how a
    body decodes, the bonded stake of a decoded answer and the gauges
    of its other fields. *)
Variable infoURL : string → string.
Variable decodeInfo : string → option Info.
Variable bondedStake : Info → V.
Variable emptyInfo : Info.
Variable renderInfo : Info → gmap string (gmap Labels V).

(** Modelled from the spec: the snapshot of the info exporter: the
    decoded answer for the primary address and the stake total derived
    at fetch time (the info exporter package is missing). *)
Record InfoSnapshot : Type := {
  info : Info;
  stake : V
}.

(** Modelled from the spec: the info exporter: it fetches the primary
    address and, when a secondary address is configured (non-empty),
    that one too, "combining a primary and secondary address's bonded
    stake into one total" (the info exporter package is missing). *)
Definition infoEndpoint (orchAddr orchAddrSecondary : string)
    : Endpoint InfoSnapshot :=
  {| requests :=
       infoURL orchAddr
       :: (if String.eqb orchAddrSecondary "" then []
           else [infoURL orchAddrSecondary]);
     decode bodies :=
       match bodies with
       | [body] =>
           i ← decodeInfo body;
           Some {| info := i; stake := bondedStake i |}
       | [body; body2] =>
           i ← decodeInfo body;
           i2 ← decodeInfo body2;
           Some {| info := i;
                   stake := add (bondedStake i) (bondedStake i2) |}
       | _ => None
       end;
     empty := {| info := emptyInfo; stake := zero |};
     render snap :=
       <[stakeGauge := {[ [] := stake snap ]}]> (renderInfo (info snap)) |}.
End Info.

(** *** Exporters keyed by a variable-length collection *)

Section Collection.
Context {V Entry : Type}.

(** The upstream schema is opaque: the URLs, how the bodies decode into
    the collection, the labels of an entry, and the gauges with the
    value each takes from an entry. *)
Variable urls : list string.
Variable decodeEntries : list string → option (list Entry).
Variable labelsOf : Entry → Labels.
Variable gauges : list (string * (Entry → V)).

(** Modelled from the spec: one gauge rewritten from the collection:
    its label set is reset and one value is set per entry (the update
    code of the delegators, test-streams and tickets packages is
    missing). *)
Definition series (val : Entry → V) (entries : list Entry)
    : gmap Labels V :=
  foldl (λ m entry, <[labelsOf entry := val entry]> m) ∅ entries.

(** Modelled from the spec: an exporter "whose gauges are keyed by a
    variable-length collection (delegators, test streams, tickets)",
    which "must fully reset/replace that gauge's label set on each
    update" (these three exporter packages are missing). *)
Definition collectionEndpoint : Endpoint (list Entry) :=
  {| requests := urls;
     decode := decodeEntries;
     empty := [];
     render entries :=
       list_to_map ((λ g, (g.1, series g.2 entries)) <$> gauges) |}.
End Collection.
End SubExporter.

(** The duration variables, in the order [main] reads them. *)
Definition durationVars : list string :=
  [FETCH_INTERVAL; FETCH_TEST_STREAMS_INTERVAL; UPDATE_INTERVAL].

(** *** Sample worlds *)

Definition world (vars : list (string * string)) (listen : option error)
    : World :=
  {| environ := list_to_map vars; listenError := listen |}.

Definition sampleAddress : string := "0x847791cbf03be716a7fe9dc8c9affe17bd49ae5e".
Definition sampleSecondary : string := "0x9c10672cee058fd658103d90872fe431bb6c0afa".

Definition bareWorld : World := world [] None.

Definition defaultWorld : World :=
  world [(ORCHESTRATOR_ADDRESS, sampleAddress)] None.

(** The address and the fetch interval are set, the other two intervals
    are left to their defaults. *)
Definition fetchOnlyWorld : World :=
  world [(ORCHESTRATOR_ADDRESS, sampleAddress); (FETCH_INTERVAL, "5m")] None.

Definition typoWorld : World :=
  world [(ORCHESTRATOR_ADDRESS, sampleAddress);
         (FETCH_TEST_STREAMS_INTERVAL, "notaduration")] None.

Definition oddWorld : World :=
  world [(ORCHESTRATOR_ADDRESS, sampleAddress);
         (ORCHESTRATOR_ADDRESS_SECONDARY, sampleSecondary);
         (FETCH_INTERVAL, "-5m");
         (FETCH_TEST_STREAMS_INTERVAL, "0s");
         (UPDATE_INTERVAL, "1h15m30s")] None.

Definition busyPortWorld : World :=
  world [(ORCHESTRATOR_ADDRESS, sampleAddress); (UPDATE_INTERVAL, "10s")]
        (Some "listen tcp :9153: bind: address already in use").

(** The same world with another outcome of the listener. *)
Definition withListenError (w : World) (listen : option error) : World :=
  {| environ := environ w; listenError := listen |}.

(** [time.ParseDuration] as the examples use it. *)
Definition goParseDuration : string → time.Duration * option error :=
  time.ParseDuration time.exactFrac.

(** ** A stub upstream for the examples

    Bodies are plain text: a stake is a decimal number, a collection is a
    sequence of words, alternately a delegator and its stake. *)

Definition stubURL (orchAddr : string) : string := orchAddr.

Definition stubNumber (body : string) : option Z :=
  match time.leadingInt body with
  | Some (x, EmptyString) => Some x
  | _ => None
  end.

Fixpoint stubPairs (ws : list string) : option (list (string * Z)) :=
  match ws with
  | [] => Some []
  | [_] => None
  | name :: w :: ws =>
      x ← stubNumber w;
      rest ← stubPairs ws;
      Some ((name, x) :: rest)
  end.

Definition stubEntries (bodies : list string) : option (list (string * Z)) :=
  match bodies with
  | [body] => stubPairs (String.words body)
  | _ => None
  end.

Definition stubInfo (orchAddr orchAddrSecondary : string)
    : SubExporter.Endpoint SubExporter.InfoSnapshot :=
  SubExporter.infoEndpoint stubURL stubNumber id 0 (λ _, ∅)
    orchAddr orchAddrSecondary.

Definition stubDelegators (orchAddr : string)
    : SubExporter.Endpoint (list (string * Z)) :=
  SubExporter.collectionEndpoint [stubURL orchAddr] stubEntries
    (λ entry, [("delegator", entry.1)]) [("delegator_stake", snd)].

(** The upstream answers 100 for the primary address and 50 for the
    secondary one. *)
Definition stakeUpstream : SubExporter.Upstream := λ url,
  if String.eqb url sampleAddress then SubExporter.Response 200 "100"
  else if String.eqb url sampleSecondary then SubExporter.Response 200 "50"
  else SubExporter.Response 404 "".

Definition brokenUpstream : SubExporter.Upstream := λ _,
  SubExporter.Response 500 "Internal Server Error".

Definition twoDelegators : SubExporter.Upstream := λ _,
  SubExporter.Response 200 "alice 100 bob 50".

Definition oneDelegator : SubExporter.Upstream := λ _,
  SubExporter.Response 200 "alice 120".

(** The delegators exporter after it has fetched and published two
    delegators. *)
Definition twoPublished : SubExporter.State (list (string * Z)) :=
  SubExporter.run (stubDelegators sampleAddress)
    (SubExporter.construct (stubDelegators sampleAddress) ∅)
    [SubExporter.FetchTick twoDelegators; SubExporter.UpdateTick].

(** ** Vocabulary for further statements about [main] *)

(** The variables [main] reads, in the order it reads them. *)
Definition configVars : list string :=
  [ORCHESTRATOR_ADDRESS; ORCHESTRATOR_ADDRESS_SECONDARY; FETCH_INTERVAL;
   FETCH_TEST_STREAMS_INTERVAL; UPDATE_INTERVAL].

(** The world with one variable set, or removed. *)
Definition setenv (w : World) (key value : string) : World :=
  {| environ := <[key:=value]> (environ w); listenError := listenError w |}.

Definition unsetenv (w : World) (key : string) : World :=
  {| environ := delete key (environ w); listenError := listenError w |}.

(** Two results of a parser that [main] cannot tell apart: the same error,
    or no error and the same duration. *)
Definition agree (r r' : time.Duration * option error) : Prop :=
  snd r = snd r' ∧ (snd r = None → fst r = fst r').

(** A configuration [main] refuses: no address, or a duration variable that
    is set and rejected. *)
Definition misconfigured (ParseDuration : string → time.Duration * option error)
    (w : World) : Prop :=
  os.Getenv w ORCHESTRATOR_ADDRESS = ""
  ∨ ∃ name err, name ∈ durationVars
      ∧ rejects ParseDuration (os.Getenv w name) err.

(** An exporter with its secondary address replaced, if it takes one. *)
Definition withSecondary (secondary : string) (e : exporter) : exporter :=
  match orchAddrSecondary e with
  | Some _ =>
      Exporter (kind e) (orchAddress e) (fetchInterval e) (updateInterval e)
        (Some secondary)
  | None => e
  end.

(** More sample worlds and a parser that accepts the empty string. *)
Definition noisyWorld : World :=
  world [("HOME", "/root"); (ORCHESTRATOR_ADDRESS, sampleAddress);
         ("LIVEPEER_EXPORTER_PORT", "8954"); (UPDATE_INTERVAL, "")] None.

Definition doubleTypoWorld : World :=
  world [(ORCHESTRATOR_ADDRESS, sampleAddress);
         (FETCH_INTERVAL, "2m");
         (FETCH_TEST_STREAMS_INTERVAL, "notaduration");
         (UPDATE_INTERVAL, "15")] None.

Definition emptyIsAnHour (s : string) : time.Duration * option error :=
  if String.eqb s "" then (time.Hour, None)
  else
    let '(d, err) := goParseDuration s in
    match err with
    | Some _ => (time.Hour, err)
    | None => (d, None)
    end.

(** * Theorems *)

(** ** [time.ParseDuration]: the loop has fuel enough *)

Section ParseDurationFacts.
Import time.
Variable fracNanos : Z → Z → Z → Z.

Lemma leadingIntFrom_length x s v r :
  leadingIntFrom x s = Some (v, r) → (String.length r ≤ String.length s)%nat.
Proof.
  revert x. induction s as [|c s IH]; intros x; cbn.
  - by intros [= <- <-].
  - destruct (negb (isDigit c)); [by intros [= <- <-]|].
    destruct (x >? _); [done|]. destruct (_ >? _); [done|].
    intros H. apply IH in H. lia.
Qed.

Lemma leadingFractionFrom_length x scale o s f scale' r :
  leadingFractionFrom x scale o s = (f, scale', r) →
  (String.length r ≤ String.length s)%nat.
Proof.
  revert x scale o. induction s as [|c s IH]; intros x scale o; cbn.
  - by intros [= <- <- <-].
  - destruct (negb (isDigit c)); [by intros [= <- <- <-]|].
    repeat case_match; intros Hx; apply IH in Hx; lia.
Qed.

Lemma unitSpan_length s u r :
  unitSpan s = (u, r) →
  (String.length u + String.length r = String.length s)%nat.
Proof.
  revert u r. induction s as [|c s IH]; intros u r; cbn.
  - by intros [= <- <-].
  - destruct (isDot c || isDigit c); [by intros [= <- <-]|].
    destruct (unitSpan s) as [u' r'] eqn:Hs. intros [= <- <-].
    cbn. specialize (IH _ _ eq_refl). lia.
Qed.

Lemma parseParts_fuel fuel fuel' orig d s :
  (String.length s ≤ fuel)%nat → (String.length s ≤ fuel')%nat →
  parseParts fracNanos fuel orig d s = parseParts fracNanos fuel' orig d s.
Proof.
  revert fuel' d s. induction fuel as [|fuel IH]; intros fuel' d s Hf Hf'.
  - destruct s; [by destruct fuel'|cbn in Hf; lia].
  - destruct s as [|c s]; [by destruct fuel'|].
    destruct fuel' as [|fuel']; [cbn in Hf'; lia|].
    cbn [parseParts].
    destruct (negb (isDot c || isDigit c)); [done|].
    destruct (leadingInt (String c s)) as [[v s1]|] eqn:Hint; [|done].
    apply leadingIntFrom_length in Hint.
    cbn in Hint, Hf, Hf'.
    repeat case_match; simplify_eq; try done.
    all: repeat match goal with
         | H : unitSpan _ = (_, _) |- _ => apply unitSpan_length in H
         | H : leadingFraction _ = (_, _, _) |- _ =>
             apply leadingFractionFrom_length in H
         | H : String.eqb ?u "" = false |- _ =>
             apply String.eqb_neq in H; destruct u; [done|]
         end.
    all: apply IH; cbn in *; lia.
Qed.

(** [ParseDuration] gives the loop enough fuel: more changes nothing. *)
Lemma parseParts_enough_fuel fuel orig d s :
  (String.length s ≤ fuel)%nat →
  parseParts fracNanos fuel orig d s
  = parseParts fracNanos (String.length s) orig d s.
Proof. intros Hf. by apply parseParts_fuel. Qed.
End ParseDurationFacts.

(** [time.ParseDuration] at a few strings; none has a fractional part, so
    the floating-point expression plays no role. *)
Example ParseDuration_minutes fracNanos :
  time.ParseDuration fracNanos "-5m" = (-300000000000, None).
Proof. reflexivity. Qed.

Example ParseDuration_zero fracNanos :
  time.ParseDuration fracNanos "0s" = (0, None).
Proof. reflexivity. Qed.

Example ParseDuration_compound fracNanos :
  time.ParseDuration fracNanos "1h15m30s" = (4530000000000, None).
Proof. reflexivity. Qed.

Example ParseDuration_rejected fracNanos :
  time.ParseDuration fracNanos "notaduration"
  = (0, Some (time.invalidDuration "notaduration"))
  ∧ snd (time.ParseDuration fracNanos "15") ≠ None.
Proof. split; [reflexivity | discriminate]. Qed.

Section MainFacts.
Variable ParseDuration : string → time.Duration * option error.

Lemma resolves_or_rejects (dflt : time.Duration) (value : string) :
  (∃ d, resolves ParseDuration dflt value d)
  ∨ (∃ err, rejects ParseDuration value err).
Proof.
  destruct (decide (value = "")) as [->|Hne].
  - left. exists dflt. by constructor.
  - destruct (ParseDuration value) as [d [err|]] eqn:Hp.
    + right. exists err. split; [done|]. by rewrite Hp.
    + left. exists d. by apply resolves_parsed.
Qed.

Lemma resolves_rejects_excl dflt value d err :
  resolves ParseDuration dflt value d → rejects ParseDuration value err → False.
Proof.
  intros [-> _|_ Hp] [Hne Hr]; [done|]. rewrite Hp in Hr. discriminate.
Qed.

Lemma resolves_fun dflt value d d' :
  resolves ParseDuration dflt value d → resolves ParseDuration dflt value d' →
  d = d'.
Proof.
  intros [Hv ->|Hv Hp] [Hv' ->|Hv' Hp']; try done. congruence.
Qed.

(** [main] follows one of the five ways, whatever the world. *)
Lemma run_startup (w : World) : startup ParseDuration w (run ParseDuration w).
Proof.
  unfold run, main.
  destruct (String.eqb_spec (os.Getenv w ORCHESTRATOR_ADDRESS) "") as [Ha|Ha].
  { by apply startup_no_address. }
  destruct (String.eqb_spec (os.Getenv w FETCH_INTERVAL) "") as [Hf|Hf];
    [|destruct (ParseDuration (os.Getenv w FETCH_INTERVAL))
        as [fi [errf|]] eqn:Hpf];
    try (apply startup_bad_fetch; [done|split; [done|by rewrite Hpf]]).
  all: destruct (String.eqb_spec (os.Getenv w FETCH_TEST_STREAMS_INTERVAL) "")
      as [Ht|Ht];
    [|destruct (ParseDuration (os.Getenv w FETCH_TEST_STREAMS_INTERVAL))
        as [ti [errt|]] eqn:Hpt].
  all: try (eapply startup_bad_test_streams;
            [done| |split; [done|by rewrite Hpt]];
            first [by apply resolves_default | by apply resolves_parsed]).
  all: destruct (String.eqb_spec (os.Getenv w UPDATE_INTERVAL) "") as [Hu|Hu];
    [|destruct (ParseDuration (os.Getenv w UPDATE_INTERVAL))
        as [ui [erru|]] eqn:Hpu].
  all: try (eapply startup_bad_update;
            [done| | |split; [done|by rewrite Hpu]];
            first [by apply resolves_default | by apply resolves_parsed]).
  all: cbn; unfold http.ListenAndServe; destruct (listenError w) eqn:Hl; cbn.
  all: lazymatch goal with
       | |- startup _ _ (_, ?o) =>
           replace o with
             (match listenError w with Some _ => Exit 0 | None => Serving end)
             by (by rewrite Hl)
       end.
  all: eapply (startup_serving ParseDuration w);
    first [done | by apply resolves_default | by apply resolves_parsed].
Qed.

(** A run is decided by how the configuration reads. *)
Lemma run_no_address (w : World) :
  os.Getenv w ORCHESTRATOR_ADDRESS = "" →
  run ParseDuration w
  = ([Println "Starting Livepeer exporter..."; Fatal missingAddress], Exit 1).
Proof. intros Ha. unfold run, main. by rewrite Ha. Qed.

Lemma run_serving (w : World) (fetch testStreams update : time.Duration) :
  os.Getenv w ORCHESTRATOR_ADDRESS ≠ "" →
  resolves ParseDuration fetchIntervalDefault
    (os.Getenv w FETCH_INTERVAL) fetch →
  resolves ParseDuration testStreamsFetchIntervalDefault
    (os.Getenv w FETCH_TEST_STREAMS_INTERVAL) testStreams →
  resolves ParseDuration updateIntervalDefault
    (os.Getenv w UPDATE_INTERVAL) update →
  run ParseDuration w
  = (servingTrace (os.Getenv w ORCHESTRATOR_ADDRESS)
       (os.Getenv w ORCHESTRATOR_ADDRESS_SECONDARY) fetch testStreams update,
     match listenError w with Some _ => Exit 0 | None => Serving end).
Proof.
  intros Ha Hf Ht Hu.
  destruct (run_startup w) as
    [Ha'|err _ Hr|f err _ Hf' Hr|f t err _ Hf' Ht' Hr|f t u _ Hf' Ht' Hu'].
  - done.
  - destruct (resolves_rejects_excl _ _ _ _ Hf Hr).
  - destruct (resolves_rejects_excl _ _ _ _ Ht Hr).
  - destruct (resolves_rejects_excl _ _ _ _ Hu Hr).
  - by rewrite (resolves_fun _ _ _ _ Hf Hf'), (resolves_fun _ _ _ _ Ht Ht'),
      (resolves_fun _ _ _ _ Hu Hu').
Qed.

(** A run that does not serve stops after its second line of log. *)
Lemma run_fatal_or_serving (w : World) :
  (∃ msg, run ParseDuration w
          = ([Println "Starting Livepeer exporter..."; Fatal msg], Exit 1))
  ∨ (∃ fetch testStreams update,
       os.Getenv w ORCHESTRATOR_ADDRESS ≠ ""
       ∧ resolves ParseDuration fetchIntervalDefault
           (os.Getenv w FETCH_INTERVAL) fetch
       ∧ resolves ParseDuration testStreamsFetchIntervalDefault
           (os.Getenv w FETCH_TEST_STREAMS_INTERVAL) testStreams
       ∧ resolves ParseDuration updateIntervalDefault
           (os.Getenv w UPDATE_INTERVAL) update
       ∧ run ParseDuration w
         = (servingTrace (os.Getenv w ORCHESTRATOR_ADDRESS)
              (os.Getenv w ORCHESTRATOR_ADDRESS_SECONDARY)
              fetch testStreams update,
            match listenError w with Some _ => Exit 0 | None => Serving end)).
Proof.
  destruct (run_startup w); [left; eauto ..|right].
  eexists _, _, _. eauto 10.
Qed.

Lemma rejects_fun value err err' :
  rejects ParseDuration value err → rejects ParseDuration value err' →
  err = err'.
Proof. intros [_ Hr] [_ Hr']. congruence. Qed.

Lemma resolves_unset dflt value d :
  resolves ParseDuration dflt value d → value = "" → d = dflt.
Proof. by intros [_ ->|Hne _] Hv. Qed.

Lemma resolves_set dflt value d :
  resolves ParseDuration dflt value d → value ≠ "" →
  ParseDuration value = (d, None).
Proof. by intros [Hv _|_ Hp] Hne. Qed.
End MainFacts.

(** Membership in an explicit list, one element at a time. *)
Ltac elem_cases H :=
  repeat (apply elem_of_cons in H as [H|H]);
  try (apply elem_of_nil in H; destruct H).

Ltac in_vars := unfold durationVars; rewrite !elem_of_cons; tauto.

Section MainClaims.
Variable ParseDuration : string → time.Duration * option error.

Abbreviation run := (run ParseDuration).
Abbreviation trace := (trace ParseDuration).
Abbreviation exit := (exit ParseDuration).
Abbreviation resolves := (resolves ParseDuration).
Abbreviation rejects := (rejects ParseDuration).

(** C1: when LIVEPEER_EXPORTER_ORCHESTRATOR_ADDRESS is unset or empty, the
    process logs a fatal error and exits with status 1, a non-zero status;
    no sub-exporter has been constructed or started and the HTTP listener
    has not been opened. *)
Theorem missing_address_is_fatal (w : World) :
  environ w !! ORCHESTRATOR_ADDRESS = None
  ∨ environ w !! ORCHESTRATOR_ADDRESS = Some "" →
  run w = ([Println "Starting Livepeer exporter..."; Fatal missingAddress],
           Exit 1)
  ∧ exit w ≠ Exit 0
  ∧ constructed (trace w) = []
  ∧ started (trace w) = []
  ∧ ∀ addr, ListenAndServe addr ∉ trace w.
Proof.
  intros Henv.
  assert (os.Getenv w ORCHESTRATOR_ADDRESS = "") as Ha.
  { unfold os.Getenv. by destruct Henv as [-> | ->]. }
  unfold exit, trace. rewrite (run_no_address _ w Ha). cbn.
  repeat split; try done.
  intros addr Hin. elem_cases Hin; discriminate.
Qed.

(** C2: in every configuration that [main] accepts (the address is set and
    no duration variable is set and rejected), the five sub-exporters are
    constructed, and each optional duration variable that is unset (empty)
    leaves its interval at exactly the documented default in them: 1 minute
    for LIVEPEER_EXPORTER_FETCH_INTERVAL, 15 minutes for
    LIVEPEER_EXPORTER_FETCH_TEST_STREAMS_INTERVAL and 30 seconds for
    LIVEPEER_EXPORTER_UPDATE_INTERVAL, whatever the other variables hold. *)
Theorem unset_interval_is_default (w : World) :
  os.Getenv w ORCHESTRATOR_ADDRESS ≠ "" →
  (∀ name err, name ∈ durationVars → ¬ rejects (os.Getenv w name) err) →
  ∃ fetch testStreams update : time.Duration,
    constructed (trace w)
    = [ Exporter OrchInfo (os.Getenv w ORCHESTRATOR_ADDRESS) fetch update
          (Some (os.Getenv w ORCHESTRATOR_ADDRESS_SECONDARY));
        Exporter OrchScore (os.Getenv w ORCHESTRATOR_ADDRESS) fetch update None;
        Exporter OrchDelegators (os.Getenv w ORCHESTRATOR_ADDRESS) fetch update
          None;
        Exporter OrchTestStreams (os.Getenv w ORCHESTRATOR_ADDRESS) testStreams
          update None;
        Exporter OrchTickets (os.Getenv w ORCHESTRATOR_ADDRESS) fetch update
          None ]
    ∧ resolves fetchIntervalDefault (os.Getenv w FETCH_INTERVAL) fetch
    ∧ resolves testStreamsFetchIntervalDefault
        (os.Getenv w FETCH_TEST_STREAMS_INTERVAL) testStreams
    ∧ resolves updateIntervalDefault (os.Getenv w UPDATE_INTERVAL) update
    ∧ (os.Getenv w FETCH_INTERVAL = "" → fetch = 1 * time.Minute)
    ∧ (os.Getenv w FETCH_TEST_STREAMS_INTERVAL = "" →
       testStreams = 15 * time.Minute)
    ∧ (os.Getenv w UPDATE_INTERVAL = "" → update = 30 * time.Second).
Proof.
  intros Ha Hvalid. unfold trace.
  destruct (run_startup ParseDuration w) as
    [Ha'|e _ Hr|f e _ _ Hr|f t e _ _ _ Hr|f t u _ Hf Ht Hu].
  - done.
  - destruct (Hvalid FETCH_INTERVAL e); [in_vars|done].
  - destruct (Hvalid FETCH_TEST_STREAMS_INTERVAL e); [in_vars|done].
  - destruct (Hvalid UPDATE_INTERVAL e); [in_vars|done].
  - exists f, t, u. cbn. split_and!; try done.
    + exact (resolves_unset _ _ _ _ Hf).
    + exact (resolves_unset _ _ _ _ Ht).
    + exact (resolves_unset _ _ _ _ Hu).
Qed.

(** C3: a duration variable that is set to a string [time.ParseDuration]
    rejects ends the process with status 1 on a fatal log line that names
    a rejected variable and carries the parser's error (or, when the
    address is missing too, the line about the address); no sub-exporter
    is constructed with a default interval and nothing is served.  When
    the address is set and no other duration variable is rejected, the line
    names this variable. *)
Theorem unparseable_duration_is_fatal (w : World) (name : string)
    (err : error) :
  name ∈ durationVars →
  rejects (os.Getenv w name) err →
  exit w = Exit 1
  ∧ constructed (trace w) = []
  ∧ started (trace w) = []
  ∧ (∀ addr, ListenAndServe addr ∉ trace w)
  ∧ (∃ msg, last (trace w) = Some (Fatal msg)
      ∧ (os.Getenv w ORCHESTRATOR_ADDRESS = "" ∧ msg = missingAddress
         ∨ ∃ name' err', name' ∈ durationVars
             ∧ rejects (os.Getenv w name') err'
             ∧ msg = parseFailure name' err'))
  ∧ (os.Getenv w ORCHESTRATOR_ADDRESS ≠ "" →
     (∀ name' err', name' ∈ durationVars →
        rejects (os.Getenv w name') err' → name' = name) →
     last (trace w) = Some (Fatal (parseFailure name err))).
Proof.
  intros Hname Hrej.
  cut (exit w = Exit 1
       ∧ constructed (trace w) = []
       ∧ started (trace w) = []
       ∧ (∀ addr, ListenAndServe addr ∉ trace w)
       ∧ ∃ msg, last (trace w) = Some (Fatal msg)
           ∧ (os.Getenv w ORCHESTRATOR_ADDRESS = "" ∧ msg = missingAddress
              ∨ ∃ name' err', name' ∈ durationVars
                  ∧ rejects (os.Getenv w name') err'
                  ∧ msg = parseFailure name' err')).
  { intros (Hx & Hc & Hs & Hl & msg & Hlast & Hmsg). split_and!; eauto.
    intros Ha Honly. rewrite Hlast.
    destruct Hmsg as [[Ha' _]|(name' & err' & Hin & Hrej' & ->)]; [done|].
    rewrite (Honly name' err' Hin Hrej') in Hrej' |- *.
    by rewrite (rejects_fun _ _ _ _ Hrej Hrej'). }
  unfold exit, trace.
  assert (∀ msg : string, ∀ addr,
    ListenAndServe addr ∉ [Println "Starting Livepeer exporter..."; Fatal msg])
    as Hnl.
  { intros msg addr Hin. elem_cases Hin; discriminate. }
  destruct (run_startup ParseDuration w) as
    [Ha|e Ha Hr|f e Ha Hf Hr|f t e Ha Hf Ht Hr|f t u Ha Hf Ht Hu]; cbn.
  - repeat split; try done. eexists. split; [done|]. by left.
  - repeat split; try done. eexists. split; [done|]. right.
    exists FETCH_INTERVAL, e. repeat split; try apply Hr. in_vars.
  - repeat split; try done. eexists. split; [done|]. right.
    exists FETCH_TEST_STREAMS_INTERVAL, e.
    repeat split; try apply Hr. in_vars.
  - repeat split; try done. eexists. split; [done|]. right.
    exists UPDATE_INTERVAL, e. repeat split; try apply Hr. in_vars.
  - exfalso. unfold durationVars in Hname. elem_cases Hname; subst name.
    + exact (resolves_rejects_excl _ _ _ _ _ Hf Hrej).
    + exact (resolves_rejects_excl _ _ _ _ _ Ht Hrej).
    + exact (resolves_rejects_excl _ _ _ _ _ Hu Hrej).
Qed.

(** C7: the test-streams sub-exporter is constructed with the interval of
    LIVEPEER_EXPORTER_FETCH_TEST_STREAMS_INTERVAL, the info, score,
    delegators and tickets sub-exporters with the interval of
    LIVEPEER_EXPORTER_FETCH_INTERVAL, and all five with the same update
    interval; these five are the ones that are started. *)
Theorem test_streams_has_own_fetch_interval (w : World)
    (fetch testStreams update : time.Duration) :
  os.Getenv w ORCHESTRATOR_ADDRESS ≠ "" →
  resolves fetchIntervalDefault (os.Getenv w FETCH_INTERVAL) fetch →
  resolves testStreamsFetchIntervalDefault
    (os.Getenv w FETCH_TEST_STREAMS_INTERVAL) testStreams →
  resolves updateIntervalDefault (os.Getenv w UPDATE_INTERVAL) update →
  let orchAddr := os.Getenv w ORCHESTRATOR_ADDRESS in
  constructed (trace w)
  = [ Exporter OrchInfo orchAddr fetch update
        (Some (os.Getenv w ORCHESTRATOR_ADDRESS_SECONDARY));
      Exporter OrchScore orchAddr fetch update None;
      Exporter OrchDelegators orchAddr fetch update None;
      Exporter OrchTestStreams orchAddr testStreams update None;
      Exporter OrchTickets orchAddr fetch update None ]
  ∧ started (trace w) = constructed (trace w).
Proof.
  intros Ha Hf Ht Hu. unfold trace.
  by rewrite (run_serving _ w _ _ _ Ha Hf Ht Hu).
Qed.

(** C9: when the address is set and each duration variable is unset or
    accepted by [time.ParseDuration], start-up logs no fatal error and does
    not exit with status 1, and every variable that is set gives its
    interval the parsed duration unchanged, whatever its sign: no range is
    checked. *)
Theorem accepted_duration_is_used_verbatim (w : World)
    (fetch testStreams update : time.Duration) :
  os.Getenv w ORCHESTRATOR_ADDRESS ≠ "" →
  resolves fetchIntervalDefault (os.Getenv w FETCH_INTERVAL) fetch →
  resolves testStreamsFetchIntervalDefault
    (os.Getenv w FETCH_TEST_STREAMS_INTERVAL) testStreams →
  resolves updateIntervalDefault (os.Getenv w UPDATE_INTERVAL) update →
  (∀ msg, Fatal msg ∉ trace w)
  ∧ exit w ≠ Exit 1
  ∧ (os.Getenv w FETCH_INTERVAL ≠ "" →
     ParseDuration (os.Getenv w FETCH_INTERVAL) = (fetch, None))
  ∧ (os.Getenv w FETCH_TEST_STREAMS_INTERVAL ≠ "" →
     ParseDuration (os.Getenv w FETCH_TEST_STREAMS_INTERVAL)
     = (testStreams, None))
  ∧ (os.Getenv w UPDATE_INTERVAL ≠ "" →
     ParseDuration (os.Getenv w UPDATE_INTERVAL) = (update, None))
  ∧ length (constructed (trace w)) = 5%nat
  ∧ ∀ e, e ∈ constructed (trace w) →
      fetchInterval e
      = (if decide (kind e = OrchTestStreams) then testStreams else fetch)
      ∧ updateInterval e = update.
Proof.
  intros Ha Hf Ht Hu. unfold trace, exit.
  rewrite (run_serving _ w _ _ _ Ha Hf Ht Hu). cbn.
  split_and!.
  - intros msg Hin. elem_cases Hin; discriminate.
  - by destruct (listenError w).
  - exact (resolves_set _ _ _ _ Hf).
  - exact (resolves_set _ _ _ _ Ht).
  - exact (resolves_set _ _ _ _ Hu).
  - done.
  - intros e He. elem_cases He; by subst e.
Qed.

(** C10: when [http.ListenAndServe] on port 9153 returns an error, [main]
    returns: the process exits with status 0, the call to the listener is
    the last thing the trace shows, no fatal line is logged, and the run
    is the same whatever the error was. *)
Theorem listen_error_is_discarded (w : World) (err : error) :
  listenError w = Some err →
  ListenAndServe ":9153" ∈ trace w →
  exit w = Exit 0
  ∧ last (trace w) = Some (ListenAndServe ":9153")
  ∧ (∀ msg, Fatal msg ∉ trace w)
  ∧ ∀ err', run (withListenError w (Some err')) = run w.
Proof.
  intros Hl. unfold trace, exit.
  destruct (run_fatal_or_serving ParseDuration w)
    as [[msg ->]|(f & t & u & Ha & Hf & Ht & Hu & Hrun)]; cbn; intros Hin.
  { elem_cases Hin; discriminate. }
  rewrite Hrun, Hl. cbn. split_and!; try done.
  - intros msg Hm. elem_cases Hm; discriminate.
  - intros err'.
    by rewrite (run_serving _ (withListenError w (Some err')) f t u Ha Hf Ht Hu).
Qed.
End MainClaims.

(** ** The theorems at the sample worlds *)

Lemma missing_address_is_fatal_witness :
  run goParseDuration bareWorld
  = ([Println "Starting Livepeer exporter..."; Fatal missingAddress], Exit 1)
  ∧ exit goParseDuration bareWorld ≠ Exit 0
  ∧ constructed (trace goParseDuration bareWorld) = []
  ∧ started (trace goParseDuration bareWorld) = []
  ∧ ∀ addr, ListenAndServe addr ∉ trace goParseDuration bareWorld.
Proof.
  apply (missing_address_is_fatal goParseDuration bareWorld).
  left. reflexivity.
Defined.

Lemma unset_interval_is_default_witness :
  length (constructed (trace goParseDuration fetchOnlyWorld)) = 5%nat
  ∧ updateInterval <$> constructed (trace goParseDuration fetchOnlyWorld)
    = [30000000000; 30000000000; 30000000000; 30000000000; 30000000000]
  ∧ fetchInterval <$> constructed (trace goParseDuration fetchOnlyWorld)
    = [300000000000; 300000000000; 300000000000; 900000000000; 300000000000].
Proof.
  destruct (unset_interval_is_default goParseDuration fetchOnlyWorld)
    as (fetch & testStreams & update & Hlist & Hf & _ & _ & _ & Ht & Hu).
  - discriminate.
  - intros name err Hin [Hset Hrej]. unfold durationVars in Hin.
    elem_cases Hin; subst name; [discriminate Hrej|by destruct Hset..].
  - rewrite Hlist. cbn [length fmap list_fmap fetchInterval updateInterval].
    rewrite (Ht eq_refl), (Hu eq_refl).
    rewrite (resolves_fun goParseDuration _ _ fetch 300000000000 Hf)
      by (apply resolves_parsed; [discriminate | reflexivity]).
    split_and!; reflexivity.
Defined.

Lemma unparseable_duration_is_fatal_witness :
  exit goParseDuration typoWorld = Exit 1
  ∧ constructed (trace goParseDuration typoWorld) = []
  ∧ last (trace goParseDuration typoWorld)
    = Some (Fatal (parseFailure FETCH_TEST_STREAMS_INTERVAL
                     (time.invalidDuration "notaduration"))).
Proof.
  destruct (unparseable_duration_is_fatal goParseDuration typoWorld
              FETCH_TEST_STREAMS_INTERVAL
              (time.invalidDuration "notaduration"))
    as (He & Hc & _ & _ & _ & Hlast).
  - in_vars.
  - split; [discriminate | reflexivity].
  - split_and!; [exact He | exact Hc |].
    apply Hlast; [discriminate|].
    intros name' err' Hin [Hset _]. unfold durationVars in Hin.
    elem_cases Hin; subst name'; [|reflexivity|]; by destruct Hset.
Defined.

Lemma test_streams_has_own_fetch_interval_witness :
  constructed (trace goParseDuration oddWorld)
  = [ Exporter OrchInfo sampleAddress (-300000000000) 4530000000000
        (Some sampleSecondary);
      Exporter OrchScore sampleAddress (-300000000000) 4530000000000 None;
      Exporter OrchDelegators sampleAddress (-300000000000) 4530000000000 None;
      Exporter OrchTestStreams sampleAddress 0 4530000000000 None;
      Exporter OrchTickets sampleAddress (-300000000000) 4530000000000 None ]
  ∧ started (trace goParseDuration oddWorld)
    = constructed (trace goParseDuration oddWorld).
Proof.
  apply (test_streams_has_own_fetch_interval goParseDuration oddWorld
           (-300000000000) 0 4530000000000).
  - discriminate.
  - apply resolves_parsed; [discriminate | reflexivity].
  - apply resolves_parsed; [discriminate | reflexivity].
  - apply resolves_parsed; [discriminate | reflexivity].
Defined.

Lemma accepted_duration_is_used_verbatim_witness :
  (∀ msg, Fatal msg ∉ trace goParseDuration oddWorld)
  ∧ exit goParseDuration oddWorld ≠ Exit 1
  ∧ goParseDuration "-5m" = (-300000000000, None)
  ∧ goParseDuration "0s" = (0, None)
  ∧ ∀ e, e ∈ constructed (trace goParseDuration oddWorld) →
      fetchInterval e
      = (if decide (kind e = OrchTestStreams) then 0 else -300000000000)
      ∧ updateInterval e = 4530000000000.
Proof.
  destruct (accepted_duration_is_used_verbatim goParseDuration oddWorld
              (-300000000000) 0 4530000000000)
    as (Hnf & Hx & Hf & Ht & _ & _ & Hall).
  - discriminate.
  - apply resolves_parsed; [discriminate | reflexivity].
  - apply resolves_parsed; [discriminate | reflexivity].
  - apply resolves_parsed; [discriminate | reflexivity].
  - split_and!; [exact Hnf | exact Hx | | | exact Hall].
    + apply Hf. discriminate.
    + apply Ht. discriminate.
Defined.

Lemma listen_error_is_discarded_witness :
  exit goParseDuration busyPortWorld = Exit 0
  ∧ ∀ msg, Fatal msg ∉ trace goParseDuration busyPortWorld.
Proof.
  destruct (listen_error_is_discarded goParseDuration busyPortWorld
              "listen tcp :9153: bind: address already in use")
    as (Hx & _ & Hnf & _).
  - reflexivity.
  - vm_compute. repeat constructor.
  - split; [exact Hx | exact Hnf].
Defined.

(** * The sub-exporters: fetch, update and scrape *)

Section SubExporterFacts.
Import SubExporter.
Context {V : Type}.

(** A sample is scraped exactly when its gauge holds it. *)
Lemma elem_of_scrape (reg : gmap string (gmap Labels V)) name labels v :
  (name, labels, v) ∈ scrape reg
  ↔ ∃ series, reg !! name = Some series ∧ series !! labels = Some v.
Proof.
  unfold scrape. rewrite list_elem_of_bind. split.
  - intros ([n series] & Hin & Hreg).
    apply list_elem_of_bind in Hin as ([l v'] & Hin & Hser).
    apply list_elem_of_singleton in Hin. simplify_eq.
    apply elem_of_map_to_list in Hreg, Hser. eauto.
  - intros (series & Hreg & Hser). exists (name, series). split.
    + apply list_elem_of_bind. exists (labels, v). split.
      * by apply list_elem_of_singleton.
      * by apply elem_of_map_to_list.
    + by apply elem_of_map_to_list.
Qed.

Lemma getAll_error (up : Upstream) (urls : list string) url err :
  url ∈ urls → get up url = inl err → ∃ err', getAll up urls = inl err'.
Proof.
  induction urls as [|u urls IH]; intros Hin Hget.
  - by apply elem_of_nil in Hin.
  - cbn. apply elem_of_cons in Hin as [<-|Hin].
    + rewrite Hget. eauto.
    + destruct (get up u); [eauto|].
      destruct (IH Hin Hget) as [err' ->]. eauto.
Qed.

Context {Data : Type} (ep : @Endpoint V Data).

Lemma fetchFails_error (up : Upstream) :
  fetchFails ep up → ∃ err, fetchData ep up = inl err.
Proof.
  unfold fetchData. intros [url msg Hin Hup|url status body Hin Hup Hst|bodies Hall Hdec].
  - destruct (getAll_error up (requests ep) url (NetworkFailure url msg) Hin)
      as [err ->]; [|eauto].
    unfold get. by rewrite Hup.
  - destruct (getAll_error up (requests ep) url (BadStatus url status) Hin)
      as [err ->]; [|eauto].
    unfold get. rewrite Hup.
    destruct (Z.leb_spec 200 status), (Z.ltb_spec status 300); cbn;
      try done; lia.
  - rewrite Hall, Hdec. eauto.
Qed.

Lemma fetch_error (up : Upstream) (st : State Data) err :
  fetchData ep up = inl err →
  fetch ep up st
  = {| snapshot := snapshot st; registry := registry st;
       errors := errors st ++ [err] |}.
Proof. unfold fetch. by intros ->. Qed.

Lemma fetch_success (up : Upstream) (st : State Data) data :
  fetchData ep up = inr data →
  fetch ep up st
  = {| snapshot := data; registry := registry st; errors := errors st |}.
Proof. unfold fetch. by intros ->. Qed.

(** Publishing the same snapshot twice changes nothing. *)
Lemma update_idemp (st : State Data) :
  registry (update ep (update ep st)) = registry (update ep st).
Proof. cbn. by rewrite (assoc_L (∪)), (idemp_L (∪)). Qed.

(** C4: a fetch that fails, by a network error, a status outside 2xx or a
    body that does not decode, leaves the snapshot and the gauges as they
    were; after the next update tick the gauges, and so the scrape, are
    what the update tick before the failure published. *)
Theorem failed_fetch_keeps_gauges (up : Upstream) (st : State Data) :
  fetchFails ep up →
  snapshot (fetch ep up st) = snapshot st
  ∧ registry (fetch ep up st) = registry st
  ∧ registry (run ep st [UpdateTick; FetchTick up; UpdateTick])
    = registry (run ep st [UpdateTick])
  ∧ scrape (registry (run ep st [UpdateTick; FetchTick up; UpdateTick]))
    = scrape (registry (run ep st [UpdateTick])).
Proof.
  intros Hfail. destruct (fetchFails_error up Hfail) as [err Herr].
  assert (registry (run ep st [UpdateTick; FetchTick up; UpdateTick])
          = registry (run ep st [UpdateTick])) as Hreg.
  { cbn [run foldl step]. rewrite (fetch_error up _ err Herr).
    apply update_idemp. }
  split_and!; [by rewrite (fetch_error up st err Herr)
              |by rewrite (fetch_error up st err Herr)|done|by rewrite Hreg].
Qed.

(** Any number of failed fetches between two update ticks. *)
Lemma failed_fetches_keep_gauges (ups : list Upstream) (st : State Data) :
  Forall (fetchFails ep) ups →
  snapshot (run ep st (FetchTick <$> ups)) = snapshot st
  ∧ registry (run ep st (FetchTick <$> ups)) = registry st.
Proof.
  intros Hall. revert st.
  induction Hall as [|up ups Hup _ IH]; intros st; [done|].
  destruct (fetchFails_error up Hup) as [err Herr].
  change (run ep st (FetchTick <$> up :: ups))
    with (run ep (fetch ep up st) (FetchTick <$> ups)).
  destruct (IH (fetch ep up st)) as [-> ->].
  by rewrite (fetch_error up st err Herr).
Qed.
End SubExporterFacts.

Section InfoFacts.
Import SubExporter.
Context {V : Type} `{!Numeric V} {Info : Type}.
Variable infoURL : string → string.
Variable decodeInfo : string → option Info.
Variable bondedStake : Info → V.
Variable emptyInfo : Info.
Variable renderInfo : Info → gmap string (gmap Labels V).

Abbreviation infoExporter :=
  (infoEndpoint infoURL decodeInfo bondedStake emptyInfo renderInfo).

Lemma get_ok (up : Upstream) url status body :
  up url = Response status body → 200 ≤ status < 300 →
  get up url = inr body.
Proof.
  intros Hup Hst. unfold get. rewrite Hup.
  destruct (Z.leb_spec 200 status), (Z.ltb_spec status 300); cbn;
    try done; lia.
Qed.

(** C5: with a secondary address configured, after a fetch in which the
    upstream answers for both addresses and the update tick that follows,
    the stake gauge holds one sample, the sum of the bonded stake of the
    primary and of the secondary address. *)
Theorem secondary_stake_is_added (orchAddr orchAddrSecondary : string)
    (up : Upstream) (st : @State V (@InfoSnapshot V Info))
    (status status2 : Z) (body body2 : string) (i i2 : Info) :
  orchAddrSecondary ≠ "" →
  up (infoURL orchAddr) = Response status body →
  200 ≤ status < 300 →
  decodeInfo body = Some i →
  up (infoURL orchAddrSecondary) = Response status2 body2 →
  200 ≤ status2 < 300 →
  decodeInfo body2 = Some i2 →
  let st' := run (infoExporter orchAddr orchAddrSecondary) st
               [FetchTick up; UpdateTick] in
  stake (snapshot st') = add (bondedStake i) (bondedStake i2)
  ∧ ∀ labels v,
      (stakeGauge, labels, v) ∈ scrape (registry st')
      ↔ labels = [] ∧ v = add (bondedStake i) (bondedStake i2).
Proof.
  intros Hsec Hup Hst Hdec Hup2 Hst2 Hdec2 st'.
  assert (fetchData (infoExporter orchAddr orchAddrSecondary) up
          = inr {| info := i;
                   stake := add (bondedStake i) (bondedStake i2) |}) as Hfetch.
  { unfold fetchData. cbn.
    apply String.eqb_neq in Hsec. rewrite Hsec. cbn.
    rewrite (get_ok up _ _ _ Hup Hst), (get_ok up _ _ _ Hup2 Hst2).
    cbn. by rewrite Hdec, Hdec2. }
  subst st'. cbn [run foldl step]. rewrite (fetch_success _ up st _ Hfetch).
  split; [done|]. intros labels v. rewrite elem_of_scrape. cbn.
  split.
  - intros (series & Hreg & Hser).
    rewrite lookup_union_l' in Hreg
      by (rewrite lookup_insert_eq; eauto).
    rewrite lookup_insert_eq in Hreg. injection Hreg as <-.
    apply lookup_singleton_Some in Hser as [<- <-]. done.
  - intros [-> ->]. eexists. split.
    + apply lookup_union_Some_l, lookup_insert_eq.
    + apply lookup_singleton_eq.
Qed.
End InfoFacts.

Section CollectionFacts.
Import SubExporter.
Context {V Entry : Type}.
Variable urls : list string.
Variable decodeEntries : list string → option (list Entry).
Variable labelsOf : Entry → Labels.
Variable gauges : list (string * (Entry → V)).

Abbreviation collectionExporter :=
  (collectionEndpoint urls decodeEntries labelsOf gauges).

(** The labels a rewritten gauge holds are those it had after the reset
    and those of the entries. *)
Lemma foldl_insert_None (val : Entry → V) (entries : list Entry)
    (m : gmap Labels V) (labels : Labels) :
  foldl (λ m entry, <[labelsOf entry := val entry]> m) m entries !! labels
  = None
  ↔ m !! labels = None ∧ labels ∉ labelsOf <$> entries.
Proof.
  revert m. induction entries as [|entry entries IH]; intros m; cbn.
  - split; [|tauto]. intros Hm. split; [done|]. apply not_elem_of_nil.
  - rewrite IH, lookup_insert_None, not_elem_of_cons. intuition congruence.
Qed.

Lemma series_None (val : Entry → V) (entries : list Entry) labels :
  series labelsOf val entries !! labels = None
  ↔ labels ∉ labelsOf <$> entries.
Proof.
  unfold series. rewrite foldl_insert_None, lookup_empty. tauto.
Qed.

(** Each owned gauge is rewritten from the collection. *)
Lemma render_owned (entries : list Entry) (g : string) :
  g ∈ gauges.*1 →
  ∃ val, (g, val) ∈ gauges
    ∧ render collectionExporter entries !! g
      = Some (series labelsOf val entries).
Proof.
  cbn. induction gauges as [|[g' val'] gs IH]; cbn; intros Hin.
  - by apply elem_of_nil in Hin.
  - destruct (decide (g' = g)) as [->|Hne].
    + exists val'. split; [left|]. apply lookup_insert_eq.
    + apply elem_of_cons in Hin as [Heq|Hin]; [congruence|].
      destruct (IH Hin) as (val & Hval & Hlook).
      exists val. split; [by right|].
      by rewrite lookup_insert_ne.
Qed.

(** What is scraped for an owned gauge after a successful fetch and the
    update that follows comes from the fetched entries. *)
Lemma scraped_labels_are_fetched (up : Upstream)
    (st : @State V (list Entry)) (entries : list Entry)
    (g : string) (labels : Labels) (v : V) :
  fetchData collectionExporter up = inr entries →
  g ∈ gauges.*1 →
  (g, labels, v)
    ∈ scrape (registry (run collectionExporter st [FetchTick up; UpdateTick])) →
  labels ∈ labelsOf <$> entries.
Proof.
  intros Hfetch Hg. cbn [run foldl step].
  rewrite (fetch_success _ up st _ Hfetch), elem_of_scrape.
  intros (ser & Hreg & Hser).
  destruct (render_owned entries g Hg) as (val & _ & Hren).
  cbn [update registry snapshot] in Hreg.
  rewrite (lookup_union_Some_l _ _ _ _ Hren) in Hreg.
  injection Hreg as <-.
  destruct (decide (labels ∈ labelsOf <$> entries)) as [|Hgone]; [done|].
  rewrite (proj2 (series_None val entries labels) Hgone) in Hser.
  discriminate.
Qed.

(** C6: for an exporter keyed by a collection, after a fetch that
    succeeds and the update tick that follows, the scrape holds for each
    owned gauge no sample whose labels are not among the fetched entries:
    a label combination that the new collection lacks, such as one the
    previous fetch still had, is absent, whatever the gauge held before. *)
Theorem removed_labels_leave_the_scrape (up : Upstream)
    (st : @State V (list Entry)) (entries : list Entry)
    (g : string) (labels : Labels) :
  fetchData collectionExporter up = inr entries →
  g ∈ gauges.*1 →
  labels ∉ labelsOf <$> entries →
  ∀ v, (g, labels, v)
       ∉ scrape (registry (run collectionExporter st
                             [FetchTick up; UpdateTick])).
Proof.
  intros Hfetch Hg Hgone v Hin.
  by apply Hgone, (scraped_labels_are_fetched up st entries g labels v).
Qed.
End CollectionFacts.

(** ** The theorems at the stub upstream *)

Lemma failed_fetch_keeps_gauges_witness :
  SubExporter.scrape (SubExporter.registry
    (SubExporter.run (stubDelegators sampleAddress) twoPublished
       [SubExporter.UpdateTick; SubExporter.FetchTick brokenUpstream;
        SubExporter.UpdateTick]))
  = SubExporter.scrape (SubExporter.registry
      (SubExporter.run (stubDelegators sampleAddress) twoPublished
         [SubExporter.UpdateTick]))
  ∧ SubExporter.scrape (SubExporter.registry
      (SubExporter.run (stubDelegators sampleAddress) twoPublished
         [SubExporter.UpdateTick]))
    = [("delegator_stake", [("delegator", "alice")], 100);
       ("delegator_stake", [("delegator", "bob")], 50)].
Proof.
  split; [|reflexivity].
  apply (failed_fetch_keeps_gauges (stubDelegators sampleAddress)
           brokenUpstream twoPublished).
  apply (SubExporter.fails_status _ _ sampleAddress 500
           "Internal Server Error").
  - left.
  - reflexivity.
  - lia.
Defined.

Lemma secondary_stake_is_added_witness :
  SubExporter.stake (SubExporter.snapshot
    (SubExporter.run (stubInfo sampleAddress sampleSecondary)
       (SubExporter.construct (stubInfo sampleAddress sampleSecondary) ∅)
       [SubExporter.FetchTick stakeUpstream; SubExporter.UpdateTick])) = 150
  ∧ ∀ labels v,
      (SubExporter.stakeGauge, labels, v)
        ∈ SubExporter.scrape (SubExporter.registry
            (SubExporter.run (stubInfo sampleAddress sampleSecondary)
               (SubExporter.construct (stubInfo sampleAddress sampleSecondary) ∅)
               [SubExporter.FetchTick stakeUpstream; SubExporter.UpdateTick]))
      ↔ labels = [] ∧ v = 150.
Proof.
  destruct (secondary_stake_is_added stubURL stubNumber id 0 (λ _, ∅)
              sampleAddress sampleSecondary stakeUpstream
              (SubExporter.construct (stubInfo sampleAddress sampleSecondary) ∅)
              200 200 "100" "50" 100 50) as [Hstake Hscrape].
  - discriminate.
  - reflexivity.
  - lia.
  - reflexivity.
  - reflexivity.
  - lia.
  - reflexivity.
  - split; [exact Hstake | exact Hscrape].
Defined.

Lemma removed_labels_leave_the_scrape_witness :
  ("delegator_stake", [("delegator", "bob")], 50)
    ∈ SubExporter.scrape (SubExporter.registry twoPublished)
  ∧ ∀ v, ("delegator_stake", [("delegator", "bob")], v)
         ∉ SubExporter.scrape (SubExporter.registry
             (SubExporter.run (stubDelegators sampleAddress) twoPublished
                [SubExporter.FetchTick oneDelegator; SubExporter.UpdateTick])).
Proof.
  split.
  - vm_compute. repeat constructor.
  - apply (removed_labels_leave_the_scrape [stubURL sampleAddress] stubEntries
             (λ entry, [("delegator", entry.1)]) [("delegator_stake", snd)]
             oneDelegator twoPublished [("alice", 120)]).
    + reflexivity.
    + left.
    + intros Hin. apply list_elem_of_singleton in Hin. discriminate.
Defined.

(** * [main]: what a run depends on *)

Section MainFrame.
Variable ParseDuration : string → time.Duration * option error.

Lemma Getenv_setenv (w : World) (key value key' : string) :
  os.Getenv (setenv w key value) key'
  = if decide (key = key') then value else os.Getenv w key'.
Proof.
  unfold os.Getenv, setenv. cbn. case_decide as Hk.
  - subst key'. by rewrite lookup_insert_eq.
  - by rewrite lookup_insert_ne.
Qed.

Lemma Getenv_unsetenv (w : World) (key key' : string) :
  os.Getenv (unsetenv w key) key'
  = if decide (key = key') then "" else os.Getenv w key'.
Proof.
  unfold os.Getenv, unsetenv. cbn. case_decide as Hk.
  - subst key'. by rewrite lookup_delete_eq.
  - by rewrite lookup_delete_ne.
Qed.

(** [main] sees the world through five calls of [os.Getenv] and the
    listener. *)
Lemma main_frame (w w' : World) :
  os.Getenv w ORCHESTRATOR_ADDRESS = os.Getenv w' ORCHESTRATOR_ADDRESS →
  os.Getenv w ORCHESTRATOR_ADDRESS_SECONDARY
  = os.Getenv w' ORCHESTRATOR_ADDRESS_SECONDARY →
  os.Getenv w FETCH_INTERVAL = os.Getenv w' FETCH_INTERVAL →
  os.Getenv w FETCH_TEST_STREAMS_INTERVAL
  = os.Getenv w' FETCH_TEST_STREAMS_INTERVAL →
  os.Getenv w UPDATE_INTERVAL = os.Getenv w' UPDATE_INTERVAL →
  listenError w = listenError w' →
  main ParseDuration w = main ParseDuration w'.
Proof.
  intros Ha Hs Hf Ht Hu Hl. unfold main, http.ListenAndServe.
  by rewrite Ha, Hs, Hf, Ht, Hu, Hl.
Qed.

(** X3: a run depends on the world only through the five variables that
    [main] reads and through what the listener does: two worlds that agree
    on these have the same trace and the same outcome, whatever else their
    environments hold. *)
Theorem run_reads_five_variables (w w' : World) :
  (∀ name, name ∈ configVars → os.Getenv w name = os.Getenv w' name) →
  listenError w = listenError w' →
  run ParseDuration w = run ParseDuration w'.
Proof.
  intros Hvars Hl. unfold run.
  rewrite (main_frame w w'); [done| | | | | |done];
    apply Hvars; unfold configVars; rewrite !elem_of_cons; tauto.
Qed.

(** X4: for every variable, setting it to the empty string gives the same
    run as removing it from the environment. *)
Theorem empty_is_unset (w : World) (name : string) :
  run ParseDuration (setenv w name "") = run ParseDuration (unsetenv w name).
Proof.
  unfold run.
  rewrite (main_frame (setenv w name "") (unsetenv w name)); [done|..|done];
    rewrite Getenv_setenv, Getenv_unsetenv; by case_decide.
Qed.
End MainFrame.

(** X2: [main] calls the parser only on the duration variables that are not
    empty, and when the parser reports an error it ignores the duration
    that comes with it: two parsers that agree in this sense on the values
    that are set give the same run. *)
Theorem parser_is_consulted_only_when_set
    (ParseDuration ParseDuration' : string → time.Duration * option error)
    (w : World) :
  (∀ name, name ∈ durationVars → os.Getenv w name ≠ "" →
     agree (ParseDuration (os.Getenv w name))
           (ParseDuration' (os.Getenv w name))) →
  run ParseDuration w = run ParseDuration' w.
Proof.
  intros Hagree.
  assert (∀ name, name ∈ durationVars →
    (if String.eqb (os.Getenv w name) "" then True
     else agree (ParseDuration (os.Getenv w name))
                (ParseDuration' (os.Getenv w name)))) as Hif.
  { intros name Hin. destruct (String.eqb_spec (os.Getenv w name) ""); auto. }
  pose proof (Hif FETCH_INTERVAL ltac:(in_vars)) as Hf.
  pose proof (Hif FETCH_TEST_STREAMS_INTERVAL ltac:(in_vars)) as Ht.
  pose proof (Hif UPDATE_INTERVAL ltac:(in_vars)) as Hu.
  clear Hagree Hif. unfold run, main, agree in *.
  destruct (String.eqb (os.Getenv w ORCHESTRATOR_ADDRESS) ""); [done|].
  destruct (String.eqb (os.Getenv w FETCH_INTERVAL) "");
    [|destruct (ParseDuration (os.Getenv w FETCH_INTERVAL)) as [d [e|]],
        (ParseDuration' (os.Getenv w FETCH_INTERVAL)) as [d' [e'|]];
      cbn in Hf; destruct Hf as [He Hd]; try discriminate He;
      [by injection He as -> | rewrite (Hd eq_refl)]].
  all: destruct (String.eqb (os.Getenv w FETCH_TEST_STREAMS_INTERVAL) "");
    [|destruct (ParseDuration (os.Getenv w FETCH_TEST_STREAMS_INTERVAL))
          as [dt [et|]],
        (ParseDuration' (os.Getenv w FETCH_TEST_STREAMS_INTERVAL))
          as [dt' [et'|]];
      cbn in Ht; destruct Ht as [Het Hdt]; try discriminate Het;
      [by injection Het as -> | rewrite (Hdt eq_refl)]].
  all: destruct (String.eqb (os.Getenv w UPDATE_INTERVAL) "");
    [|destruct (ParseDuration (os.Getenv w UPDATE_INTERVAL)) as [du [eu|]],
        (ParseDuration' (os.Getenv w UPDATE_INTERVAL)) as [du' [eu'|]];
      cbn in Hu; destruct Hu as [Heu Hdu]; try discriminate Heu;
      [by injection Heu as -> | rewrite (Hdu eq_refl)]].
  all: done.
Qed.

(** * [main]: the order of its checks and of its effects *)

Section MainOrder.
Variable ParseDuration : string → time.Duration * option error.

Abbreviation run' := (run ParseDuration).
Abbreviation trace' := (trace ParseDuration).
Abbreviation exit' := (exit ParseDuration).
Abbreviation resolves' := (resolves ParseDuration).
Abbreviation rejects' := (rejects ParseDuration).

Lemma not_rejected_resolves (dflt : time.Duration) (value : string) :
  (∀ err, ¬ rejects' value err) → ∃ d, resolves' dflt value d.
Proof.
  intros Hnot. destruct (resolves_or_rejects ParseDuration dflt value)
    as [Hres|[err Hrej]]; [done|]. destruct (Hnot err Hrej).
Qed.

Lemma run_bad_fetch (w : World) (err : error) :
  os.Getenv w ORCHESTRATOR_ADDRESS ≠ "" →
  rejects' (os.Getenv w FETCH_INTERVAL) err →
  run' w = ([Println "Starting Livepeer exporter...";
             Fatal (parseFailure FETCH_INTERVAL err)], Exit 1).
Proof.
  intros Ha Hr.
  destruct (run_startup ParseDuration w) as
    [Ha'|e _ Hr'|f e _ Hf _|f t e _ Hf _ _|f t u _ Hf _ _]; try done.
  - by rewrite (rejects_fun _ _ _ _ Hr Hr').
  - destruct (resolves_rejects_excl _ _ _ _ _ Hf Hr).
  - destruct (resolves_rejects_excl _ _ _ _ _ Hf Hr).
  - destruct (resolves_rejects_excl _ _ _ _ _ Hf Hr).
Qed.

Lemma run_bad_test_streams (w : World) (err : error) :
  os.Getenv w ORCHESTRATOR_ADDRESS ≠ "" →
  (∀ err', ¬ rejects' (os.Getenv w FETCH_INTERVAL) err') →
  rejects' (os.Getenv w FETCH_TEST_STREAMS_INTERVAL) err →
  run' w = ([Println "Starting Livepeer exporter...";
             Fatal (parseFailure FETCH_TEST_STREAMS_INTERVAL err)], Exit 1).
Proof.
  intros Ha Hnf Hr.
  destruct (run_startup ParseDuration w) as
    [Ha'|e _ Hr'|f e _ _ Hr'|f t e _ _ Ht _|f t u _ _ Ht _]; try done.
  - destruct (Hnf e Hr').
  - by rewrite (rejects_fun _ _ _ _ Hr Hr').
  - destruct (resolves_rejects_excl _ _ _ _ _ Ht Hr).
  - destruct (resolves_rejects_excl _ _ _ _ _ Ht Hr).
Qed.

Lemma run_bad_update (w : World) (err : error) :
  os.Getenv w ORCHESTRATOR_ADDRESS ≠ "" →
  (∀ err', ¬ rejects' (os.Getenv w FETCH_INTERVAL) err') →
  (∀ err', ¬ rejects' (os.Getenv w FETCH_TEST_STREAMS_INTERVAL) err') →
  rejects' (os.Getenv w UPDATE_INTERVAL) err →
  run' w = ([Println "Starting Livepeer exporter...";
             Fatal (parseFailure UPDATE_INTERVAL err)], Exit 1).
Proof.
  intros Ha Hnf Hnt Hr.
  destruct (run_startup ParseDuration w) as
    [Ha'|e _ Hr'|f e _ _ Hr'|f t e _ _ _ Hr'|f t u _ _ _ Hu]; try done.
  - destruct (Hnf e Hr').
  - destruct (Hnt e Hr').
  - by rewrite (rejects_fun _ _ _ _ Hr Hr').
  - destruct (resolves_rejects_excl _ _ _ _ _ Hu Hr).
Qed.

(** X1: the duration variables are checked in the order fetch interval,
    test-streams interval, update interval, and the first one that is
    rejected ends the run: the fatal line names it, whatever the variables
    after it hold. *)
Theorem first_rejected_variable_is_reported (w : World) (i : nat)
    (name : string) (err : error) :
  os.Getenv w ORCHESTRATOR_ADDRESS ≠ "" →
  durationVars !! i = Some name →
  rejects' (os.Getenv w name) err →
  (∀ j name' err', (j < i)%nat → durationVars !! j = Some name' →
     ¬ rejects' (os.Getenv w name') err') →
  run' w = ([Println "Starting Livepeer exporter...";
             Fatal (parseFailure name err)], Exit 1).
Proof.
  intros Ha Hi Hr Hbefore.
  destruct i as [|[|[|i]]]; cbn in Hi; try discriminate Hi;
    injection Hi as <-.
  - by apply run_bad_fetch.
  - apply run_bad_test_streams; [done| |done].
    intros err'. apply (Hbefore 0%nat); [lia|done].
  - apply run_bad_update; [done| | |done].
    + intros err'. apply (Hbefore 0%nat); [lia|done].
    + intros err'. apply (Hbefore 1%nat); [lia|done].
Qed.

(** X5: the process exits with status 1 exactly when the configuration is
    refused (no address, or a duration variable set and rejected), with
    status 0 exactly when the configuration is accepted and the listener
    returns, and it keeps serving exactly when the configuration is
    accepted and the listener does not return; there is no other outcome. *)
Theorem exit_status_follows_configuration (w : World) :
  (exit' w = Exit 1 ↔ misconfigured ParseDuration w)
  ∧ (exit' w = Exit 0
     ↔ ¬ misconfigured ParseDuration w ∧ is_Some (listenError w))
  ∧ (exit' w = Serving
     ↔ ¬ misconfigured ParseDuration w ∧ listenError w = None).
Proof.
  unfold exit', exit, misconfigured.
  destruct (run_startup ParseDuration w) as
    [Ha|e Ha Hr|f e Ha Hf Hr|f t e Ha Hf Ht Hr|f t u Ha Hf Ht Hu]; cbn.
  1-4: assert (os.Getenv w ORCHESTRATOR_ADDRESS = ""
               ∨ ∃ name err, name ∈ durationVars
                   ∧ rejects' (os.Getenv w name) err) as Hbad
    by (first [by left
              | right; eexists _, _; split; [|eassumption];
                unfold durationVars; rewrite !elem_of_cons; tauto]).
  1-4: split_and!; split; try done; by intros [Hgood _].
  assert (¬ (os.Getenv w ORCHESTRATOR_ADDRESS = ""
             ∨ ∃ name err, name ∈ durationVars
                 ∧ rejects' (os.Getenv w name) err)) as Hgood.
  { intros [Ha'|(name & err & Hin & Hr)]; [done|].
    unfold durationVars in Hin. elem_cases Hin; subst name.
    - exact (resolves_rejects_excl _ _ _ _ _ Hf Hr).
    - exact (resolves_rejects_excl _ _ _ _ _ Ht Hr).
    - exact (resolves_rejects_excl _ _ _ _ _ Hu Hr). }
  destruct (listenError w) as [err|]; split_and!; split;
    try done; try (by intros [_ [? ?]]); try (by intros [_ ?]);
    try (by intros ?; split; eauto).
Qed.

(** X6: start-up is all or nothing.  Either the run is the start-up line
    and one fatal line and exits with status 1, so that no sub-exporter is
    constructed or started, no route is registered and the listener is not
    opened; or all five sub-exporters are constructed, the same five are
    started, [/metrics] is registered and the last thing done is to open
    the listener on port 9153. *)
Theorem startup_is_all_or_nothing (w : World) :
  ((∃ msg, trace' w = [Println "Starting Livepeer exporter..."; Fatal msg])
   ∧ exit' w = Exit 1
   ∧ constructed (trace' w) = []
   ∧ started (trace' w) = []
   ∧ (∀ pattern, Handle pattern ∉ trace' w)
   ∧ (∀ addr, ListenAndServe addr ∉ trace' w))
  ∨ (kind <$> constructed (trace' w)
     = [OrchInfo; OrchScore; OrchDelegators; OrchTestStreams; OrchTickets]
     ∧ started (trace' w) = constructed (trace' w)
     ∧ (∀ msg, Fatal msg ∉ trace' w)
     ∧ (∀ pattern, Handle pattern ∈ trace' w ↔ pattern = "/metrics")
     ∧ (∀ addr, ListenAndServe addr ∈ trace' w ↔ addr = ":9153")
     ∧ last (trace' w) = Some (ListenAndServe ":9153")
     ∧ exit' w ≠ Exit 1).
Proof.
  unfold exit', trace', exit, trace.
  destruct (run_fatal_or_serving ParseDuration w)
    as [[msg ->]|(f & t & u & _ & _ & _ & _ & ->)]; cbn; [left|right].
  - split_and!; eauto; intros x Hin; elem_cases Hin; discriminate.
  - split_and!; try done.
    + intros msg Hin. elem_cases Hin; discriminate.
    + intros pattern. split.
      * intros Hin. elem_cases Hin; try discriminate. by injection Hin.
      * intros ->. repeat constructor.
    + intros addr. split.
      * intros Hin. elem_cases Hin; try discriminate. by injection Hin.
      * intros ->. repeat constructor.
    + by destruct (listenError w).
Qed.

(** X7: in a run that gets through the configuration, all five
    sub-exporters are constructed before any of them is started, they are
    started in the order they were constructed, and only then is the route
    registered and the listener opened. *)
Theorem effects_are_ordered (w : World) :
  exit' w ≠ Exit 1 →
  trace' w
  = [Println "Starting Livepeer exporter...";
     Println "Setting up sub exporters..."]
    ++ (Construct <$> constructed (trace' w))
    ++ [Println "Starting sub exporters..."]
    ++ (Started <$> constructed (trace' w))
    ++ [Println "Exposing metrics via HTTP on port 9153";
        Handle "/metrics"; ListenAndServe ":9153"].
Proof.
  unfold exit', trace', exit, trace.
  destruct (run_fatal_or_serving ParseDuration w)
    as [[msg ->]|(f & t & u & _ & _ & _ & _ & ->)]; cbn; [done|].
  by intros _.
Qed.

(** X8: no sub-exporter is ever constructed with an empty address: each one
    receives the value of LIVEPEER_EXPORTER_ORCHESTRATOR_ADDRESS, which is
    not empty; the info exporter alone receives the secondary address, as
    it stands in the environment (empty when unset). *)
Theorem exporters_receive_the_address (w : World) (e : exporter) :
  e ∈ constructed (trace' w) →
  orchAddress e = os.Getenv w ORCHESTRATOR_ADDRESS
  ∧ orchAddress e ≠ ""
  ∧ orchAddrSecondary e
    = if decide (kind e = OrchInfo)
      then Some (os.Getenv w ORCHESTRATOR_ADDRESS_SECONDARY) else None.
Proof.
  unfold trace', trace.
  destruct (run_fatal_or_serving ParseDuration w)
    as [[msg ->]|(f & t & u & Ha & _ & _ & _ & ->)]; cbn; intros He.
  { elem_cases He. }
  elem_cases He; by subst e.
Qed.

(** X9: the secondary address is never validated: whatever value it is
    given, the outcome of the run is the same, and the sub-exporters are
    constructed with the same arguments except for the secondary address of
    the info exporter, which becomes that value. *)
Theorem secondary_address_is_not_validated (w : World) (secondary : string) :
  exit' (setenv w ORCHESTRATOR_ADDRESS_SECONDARY secondary) = exit' w
  ∧ constructed (trace' (setenv w ORCHESTRATOR_ADDRESS_SECONDARY secondary))
    = withSecondary secondary <$> constructed (trace' w).
Proof.
  set (w' := setenv w ORCHESTRATOR_ADDRESS_SECONDARY secondary).
  assert (os.Getenv w' ORCHESTRATOR_ADDRESS = os.Getenv w ORCHESTRATOR_ADDRESS)
    as Ea by (unfold w'; by rewrite Getenv_setenv).
  assert (os.Getenv w' FETCH_INTERVAL = os.Getenv w FETCH_INTERVAL)
    as Ef by (unfold w'; by rewrite Getenv_setenv).
  assert (os.Getenv w' FETCH_TEST_STREAMS_INTERVAL
          = os.Getenv w FETCH_TEST_STREAMS_INTERVAL)
    as Et by (unfold w'; by rewrite Getenv_setenv).
  assert (os.Getenv w' UPDATE_INTERVAL = os.Getenv w UPDATE_INTERVAL)
    as Eu by (unfold w'; by rewrite Getenv_setenv).
  assert (os.Getenv w' ORCHESTRATOR_ADDRESS_SECONDARY = secondary)
    as Es by (unfold w'; by rewrite Getenv_setenv).
  unfold exit', trace', exit, trace.
  destruct (run_startup ParseDuration w) as
    [Ha|e Ha Hr|f e Ha Hf Hr|f t e Ha Hf Ht Hr|f t u Ha Hf Ht Hu].
  - by rewrite (run_no_address _ w') by (by rewrite Ea).
  - by rewrite (run_bad_fetch w' e) by (by rewrite ?Ea, ?Ef).
  - rewrite (run_bad_test_streams w' e); [done|by rewrite Ea| |by rewrite Et].
    intros err' Hr'. rewrite Ef in Hr'.
    exact (resolves_rejects_excl _ _ _ _ _ Hf Hr').
  - rewrite (run_bad_update w' e); [done|by rewrite Ea| | |by rewrite Eu].
    + intros err' Hr'. rewrite Ef in Hr'.
      exact (resolves_rejects_excl _ _ _ _ _ Hf Hr').
    + intros err' Hr'. rewrite Et in Hr'.
      exact (resolves_rejects_excl _ _ _ _ _ Ht Hr').
  - rewrite (run_serving _ w' f t u)
      by (by rewrite ?Ea, ?Ef, ?Et, ?Eu).
    by rewrite Ea, Es.
Qed.
End MainOrder.

(** ** These theorems at the sample worlds *)

Lemma first_rejected_variable_is_reported_witness :
  run goParseDuration doubleTypoWorld
  = ([Println "Starting Livepeer exporter...";
      Fatal (parseFailure FETCH_TEST_STREAMS_INTERVAL
               (time.invalidDuration "notaduration"))], Exit 1)
  ∧ snd (goParseDuration (os.Getenv doubleTypoWorld UPDATE_INTERVAL)) ≠ None.
Proof.
  split; [|discriminate].
  apply (first_rejected_variable_is_reported goParseDuration doubleTypoWorld
           1 FETCH_TEST_STREAMS_INTERVAL).
  - discriminate.
  - reflexivity.
  - split; [discriminate | reflexivity].
  - intros j name' err' Hj Hname [_ Hrej].
    destruct j as [|j]; [|lia]. injection Hname as <-. discriminate Hrej.
Defined.

Lemma parser_is_consulted_only_when_set_witness :
  run goParseDuration doubleTypoWorld = run emptyIsAnHour doubleTypoWorld
  ∧ goParseDuration "" ≠ emptyIsAnHour ""
  ∧ goParseDuration "notaduration" ≠ emptyIsAnHour "notaduration".
Proof.
  split; [|split; discriminate].
  apply (parser_is_consulted_only_when_set goParseDuration emptyIsAnHour
           doubleTypoWorld).
  intros name Hin _. unfold durationVars in Hin.
  elem_cases Hin; subst name; split; first [reflexivity | discriminate].
Defined.

Lemma run_reads_five_variables_witness :
  run goParseDuration noisyWorld = run goParseDuration defaultWorld
  ∧ environ noisyWorld ≠ environ defaultWorld.
Proof.
  split.
  - apply (run_reads_five_variables goParseDuration noisyWorld defaultWorld).
    + intros name Hin. unfold configVars in Hin.
      elem_cases Hin; subst name; reflexivity.
    + reflexivity.
  - intros Heq.
    assert (environ noisyWorld !! "HOME" = environ defaultWorld !! "HOME")
      as Hhome by (by rewrite Heq).
    discriminate Hhome.
Defined.

Lemma effects_are_ordered_witness :
  trace goParseDuration defaultWorld
  = [Println "Starting Livepeer exporter...";
     Println "Setting up sub exporters..."]
    ++ (Construct <$> constructed (trace goParseDuration defaultWorld))
    ++ [Println "Starting sub exporters..."]
    ++ (Started <$> constructed (trace goParseDuration defaultWorld))
    ++ [Println "Exposing metrics via HTTP on port 9153";
        Handle "/metrics"; ListenAndServe ":9153"]
  ∧ length (constructed (trace goParseDuration defaultWorld)) = 5%nat.
Proof.
  split; [|reflexivity].
  apply (effects_are_ordered goParseDuration defaultWorld). discriminate.
Defined.

Lemma exporters_receive_the_address_witness :
  Forall (λ e, orchAddress e = sampleAddress
               ∧ orchAddrSecondary e
                 = if decide (kind e = OrchInfo) then Some sampleSecondary
                   else None)
    (constructed (trace goParseDuration oddWorld))
  ∧ length (constructed (trace goParseDuration oddWorld)) = 5%nat.
Proof.
  split; [|reflexivity].
  apply Forall_forall. intros e He.
  destruct (exporters_receive_the_address goParseDuration oddWorld e He)
    as (Ha & _ & Hs).
  split; [exact Ha | exact Hs].
Defined.
